(** * Entity markup converter: span extraction, overlap grouping, rendering
      and comparison metrics of [entity_markup_converter.py].

    The Python program is embedded shallowly.  Text is a [string] (its
    characters are the Standard Library's 8-bit [ascii]; nothing below
    depends on the alphabet beyond the five characters [html.escape]
    rewrites); offsets and counters are Python ints, hence [Z]; Python
    sets are [gset]s; the loops over lists are [fold_left]s over an
    explicit state; the [while] loop of [find_all_occurrences] is a
    fuelled loop that is shown to return with the fuel it is given.
    Builtins ([str.find], slicing, [str.replace], [html.escape], [sorted],
    [max], [min]) are modelled in the modules [Py] and [PyLib]. *)

From Stdlib Require Import ZArith QArith Qminmax List String Ascii DecimalString
  Lia Lqa Sorted Permutation.
From stdpp Require Import base gmap sets list strings sorting.

Local Open Scope string_scope.
Local Open Scope list_scope.
Local Open Scope Z_scope.

(** ** Python string primitives *)

Module Py.

(** [len(s)] *)
Definition len (s : string) : Z := Z.of_nat (String.length s).

(** How Python turns a slice bound into an offset of a sequence of length
    [n]: a negative bound counts from the end, and everything is clamped
    to [0 .. n]. *)
Definition clamp (n i : Z) : Z :=
  if i <? 0 then Z.max 0 (i + n) else Z.min i n.

(** [s[lo:hi]] *)
Definition slice (s : string) (lo hi : Z) : string :=
  let lo' := clamp (len s) lo in
  let hi' := clamp (len s) hi in
  substring (Z.to_nat lo') (Z.to_nat (hi' - lo')) s.

(** [s[lo:]] *)
Definition slice_from (s : string) (lo : Z) : string :=
  slice s lo (len s).

(** [s.find(sub, start)]: the lowest offset [>= start] at which [sub]
    occurs in [s], or [-1].  The search itself is the Standard Library's
    [String.index], which has the same contract, the empty [sub] included
    (found at [start] as long as [start <= len(s)]). *)
Definition find (s sub : string) (start : Z) : Z :=
  let st := if start <? 0 then Z.max 0 (start + len s) else start in
  match String.index (Z.to_nat st) sub s with
  | Some pos => Z.of_nat pos
  | None => -1
  end.

(** [sub in s] *)
Definition contains (sub s : string) : bool :=
  match String.index 0 sub s with
  | Some _ => true
  | None => false
  end.

(** [str(i)] for an int, as an f-string field prints it. *)
Definition str_of_int (i : Z) : string :=
  NilZero.string_of_int (Z.to_int i).

(** [sep.join(parts)] *)
Fixpoint join (sep : string) (parts : list string) : string :=
  match parts with
  | [] => ""
  | [p] => p
  | p :: rest => p +:+ sep +:+ join sep rest
  end.

(** [''.join(parts)] *)
Definition concat (parts : list string) : string :=
  fold_right String.append "" parts.

End Py.

(** ** [find_all_occurrences] *)

(** The body of the [while True:] loop, one iteration per unit of fuel:
    [None] only when the fuel runs out before the [break]. *)
Fixpoint find_all_loop (fuel : nat) (text span_text : string) (start : Z)
    (occurrences : list (Z * Z)) : option (list (Z * Z)) :=
  match fuel with
  | O => None
  | S fuel' =>
      let pos := Py.find text span_text start in
      if pos =? -1 then Some occurrences
      else
        find_all_loop fuel' text span_text (pos + 1)
          (occurrences ++ [(pos, pos + Py.len span_text)])
  end.

(** The loop starts at offset 0 and moves one past each hit, so it breaks
    after at most [len(text) + 2] iterations ([find_all_loop_returns]). *)
Definition find_all_fuel (text : string) : nat := (String.length text + 2)%nat.

Definition find_all_occurrences (text span_text : string) : list (Z * Z) :=
  match find_all_loop (find_all_fuel text) text span_text 0 [] with
  | Some occurrences => occurrences
  | None => []
  end.

(** The offsets [i] in [0 .. len(text)] at which [span_text] can be read
    off [text]. *)
Definition occurs_at (text span_text : string) (i : nat) : bool :=
  String.eqb (substring i (String.length span_text) text) span_text.

Definition occurrence_offsets (text span_text : string) (from : nat) : list nat :=
  List.filter (occurs_at text span_text)
    (List.seq from (S (String.length text) - from)%nat).

Definition occurrence_pair (span_text : string) (i : nat) : Z * Z :=
  (Z.of_nat i, Z.of_nat i + Py.len span_text).

(** ** More Python primitives: [html.escape], [str.replace], [sorted],
       [max(.., key=..)] *)

Module PyLib.

(** The double quote, kept out of string literals. *)
Definition dq : string := String "034"%char EmptyString.

(** [html.escape(s)] with its default [quote=True]: the ampersand,
    the two angle brackets and the two quote characters are replaced by
    their entities, every other character is kept. *)
Definition escape_char (c : ascii) : string :=
  if Ascii.eqb c "&"%char then "&amp;"
  else if Ascii.eqb c "<"%char then "&lt;"
  else if Ascii.eqb c ">"%char then "&gt;"
  else if Ascii.eqb c "034"%char then "&quot;"
  else if Ascii.eqb c "'"%char then "&#x27;"
  else String c EmptyString.

Fixpoint html_escape (s : string) : string :=
  match s with
  | EmptyString => EmptyString
  | String c s' => escape_char c +:+ html_escape s'
  end.

(** [s.replace(old, new)] for a non-empty [old]: occurrences are replaced
    from left to right and do not overlap; [skip] counts the characters of
    the occurrence just replaced that are still to be passed over. *)
Fixpoint replace_from (skip : nat) (old new s : string) : string :=
  match s with
  | EmptyString => EmptyString
  | String c s' =>
      match skip with
      | S k => replace_from k old new s'
      | O =>
          if String.prefix old s
          then new +:+ replace_from (String.length old - 1) old new s'
          else String c (replace_from 0 old new s')
      end
  end.

(** With an empty [old], Python puts [new] before every character and at
    the end. *)
Fixpoint replace_empty (new s : string) : string :=
  match s with
  | EmptyString => new
  | String c s' => new +:+ String c (replace_empty new s')
  end.

Definition replace (s old new : string) : string :=
  match old with
  | EmptyString => replace_empty new s
  | String _ _ => replace_from 0 old new s
  end.

(** [sorted(l, key=..)] is stable; [le a b] reads "the key of [a] is at
    most the key of [b]".  An element is put in front of the first one
    whose key is not smaller, so equal keys keep their order. *)
Fixpoint insert_sorted {A} (le : A -> A -> bool) (x : A) (l : list A) : list A :=
  match l with
  | [] => [x]
  | y :: l' => if le x y then x :: y :: l' else y :: insert_sorted le x l'
  end.

Definition sorted {A} (le : A -> A -> bool) (l : list A) : list A :=
  fold_right (insert_sorted le) [] l.

(** [max(l, key=key)]: the first element whose key is greatest; Python
    raises on an empty list, here [None]. *)
Definition max_by {A} (key : A -> Z) (l : list A) : option A :=
  match l with
  | [] => None
  | x :: rest =>
      Some (fold_left (fun best y => if key best <? key y then y else best) rest x)
  end.

(** [min(l)] and [max(l)] of ints, [None] where Python raises. *)
Definition min_of (l : list Z) : option Z :=
  match l with
  | [] => None
  | x :: rest => Some (fold_left Z.min rest x)
  end.

Definition max_of (l : list Z) : option Z :=
  match l with
  | [] => None
  | x :: rest => Some (fold_left Z.max rest x)
  end.

End PyLib.

(** ** Data model *)

(** The three values [EntitySpan.source] takes. *)
Inductive Source := ground_truth | mistral | gpt4.

Global Instance Source_eq_dec : EqDecision Source.
Proof. solve_decision. Defined.

Module EntitySpan.
Record t := mk {
  start : Z;
  end_ : Z;
  text : string;
  types : list string;
  source : Source;
  occurrence_id : Z
}.
End EntitySpan.

Global Instance EntitySpan_eq_dec : EqDecision EntitySpan.t.
Proof. solve_decision. Defined.

Module ComparisonResult.
Record t := mk {
  exact_matches : Z;
  partial_matches : Z;
  type_mismatches : Z;
  ground_truth_only : Z;
  model_only : Z;
  total_ground_truth : Z;
  total_model : Z
}.
(** [ComparisonResult()] *)
Definition init : t := mk 0 0 0 0 0 0 0.
End ComparisonResult.

(** One [{span, types}] entry of a record. *)
Record Annotation := { span : string; ann_types : list string }.

(** A parsed JSON line.  The three annotation arrays are optional
    ([item.get(key, [])]). *)
Record Item := {
  item_text : string;
  labels : option (list Annotation);
  mistral_small_3_2_output : option (list Annotation);
  gpt_4o_mini_output : option (list Annotation)
}.

(** ** The lookup tables of [__init__] *)

Definition entity_colors : list (string * string) :=
  [ ("E21 Person", "#FF6B6B");
    ("E53 Place", "#4ECDC4");
    ("E52 Time-Span", "#45B7D1");
    ("E54 Dimension", "#96CEB4");
    ("E19 Physical Thing", "#FFEAA7");
    ("E74 Group", "#DDA0DD");
    ("E86 Leaving", "#F39C12");
    ("E9 Move", "#E17055");
    ("F2 Expression", "#A29BFE");
    ("E31 Document", "#FD79A8");
    ("E55 Type", "#FDCB6E");
    ("E7 Activity", "#6C5CE7");
    ("default", "#BDC3C7") ].

(** [self.entity_colors.get(k)] *)
Fixpoint dict_get (d : list (string * string)) (k : string) : option string :=
  match d with
  | [] => None
  | (k', v) :: d' => if String.eqb k k' then Some v else dict_get d' k
  end.

(** [self.entity_colors['default']] *)
Definition default_color : string := "#BDC3C7".

Definition source_labels (s : Source) : string :=
  match s with
  | ground_truth => "Ground Truth"
  | mistral => "Mistral Small 3.2"
  | gpt4 => "GPT-4o Mini"
  end.

(** The string stored in [EntitySpan.source]. *)
Definition source_name (s : Source) : string :=
  match s with
  | ground_truth => "ground_truth"
  | mistral => "mistral"
  | gpt4 => "gpt4"
  end.

(** ** [extract_entities] *)

(** The state of the loops: the [span_counters] dict and the [entities]
    list. *)
Definition ExtractState : Type := gmap string Z * list EntitySpan.t.

(** [span_counters[k]] of a [defaultdict(int)] *)
Definition counter_get (c : gmap string Z) (k : string) : Z :=
  default 0 (c !! k).

(** One round of [for start, end in occurrences:]. *)
Definition add_occurrence (src : Source) (span_text : string)
    (tys : list string) (st : ExtractState) (occ : Z * Z) : ExtractState :=
  let '(span_counters, entities) := st in
  let span_counters' :=
    <[span_text := counter_get span_counters span_text + 1]> span_counters in
  (span_counters',
   entities ++ [EntitySpan.mk (fst occ) (snd occ) span_text tys src
                  (counter_get span_counters' span_text)]).

(** One round of [for label in ...:] / [for prediction in ...:]. *)
Definition add_annotation (passage : string) (src : Source)
    (st : ExtractState) (a : Annotation) : ExtractState :=
  fold_left (add_occurrence src (span a) (ann_types a))
    (find_all_occurrences passage (span a)) st.

Definition add_annotations (passage : string) (src : Source)
    (anns : option (list Annotation)) (st : ExtractState) : ExtractState :=
  fold_left (add_annotation passage src) (default [] anns) st.

(** The sort key [(x.start, -x.end)], compared as Python compares
    tuples. *)
Definition sort_key (e : EntitySpan.t) : Z * Z :=
  (EntitySpan.start e, - EntitySpan.end_ e).

Definition key_le (a b : EntitySpan.t) : bool :=
  (fst (sort_key a) <? fst (sort_key b))
  || ((fst (sort_key a) =? fst (sort_key b))
      && (snd (sort_key a) <=? snd (sort_key b))).

(** The entity list before the final [sorted]. *)
Definition collect_entities (item : Item) : list EntitySpan.t :=
  let st0 : ExtractState := (∅, []) in
  let st1 := add_annotations (item_text item) ground_truth (labels item) st0 in
  (* span_counters.clear() at the head of each model round *)
  let st2 := add_annotations (item_text item) mistral
               (mistral_small_3_2_output item) (∅, snd st1) in
  let st3 := add_annotations (item_text item) gpt4
               (gpt_4o_mini_output item) (∅, snd st2) in
  snd st3.

Definition extract_entities (item : Item) : list EntitySpan.t :=
  PyLib.sorted key_le (collect_entities item).

(** ** [resolve_overlaps] *)

(** The test inside the inner loop. *)
Definition overlaps (entity group_entity : EntitySpan.t) : bool :=
  (EntitySpan.start entity <? EntitySpan.end_ group_entity)
  && (EntitySpan.end_ entity >? EntitySpan.start group_entity).

(** The loop over [entities[1:]]; the state is [(groups, current_group)]. *)
Definition resolve_step (st : list (list EntitySpan.t) * list EntitySpan.t)
    (entity : EntitySpan.t) : list (list EntitySpan.t) * list EntitySpan.t :=
  let '(groups, current_group) := st in
  if existsb (overlaps entity) current_group
  then (groups, current_group ++ [entity])
  else (groups ++ [current_group], [entity]).

Definition resolve_overlaps (entities : list EntitySpan.t)
    : list (list EntitySpan.t) :=
  match entities with
  | [] => []
  | first :: rest =>
      let '(groups, current_group) := fold_left resolve_step rest ([], [first]) in
      groups ++ [current_group]
  end.

(** ** Colours *)

Fixpoint get_primary_color (tys : list string) : string :=
  match tys with
  | [] => default_color
  | entity_type :: rest =>
      match dict_get entity_colors entity_type with
      | Some color => color
      | None => get_primary_color rest
      end
  end.

(** [colors = [self.entity_colors[t] for t in types if t in self.entity_colors]] *)
Definition matched_colors (tys : list string) : list string :=
  omap (dict_get entity_colors) tys.

(** The stripe stops of three or more colours:
    [f"{color} {start}%, {color} {end}%"] for each [enumerate(colors)]. *)
Definition gradient_stops (colors : list string) : list string :=
  let stripe_width := 100 / Z.of_nat (length colors) in
  imap (fun i color =>
          color +:+ " " +:+ Py.str_of_int (Z.of_nat i * stripe_width) +:+ "%, "
          +:+ color +:+ " " +:+ Py.str_of_int ((Z.of_nat i + 1) * stripe_width)
          +:+ "%") colors.

Definition get_combined_colors (tys : list string) : string * string :=
  if (length tys <=? 1)%nat then
    let primary := get_primary_color tys in (primary, primary)
  else
    match matched_colors tys with
    | [] => (default_color, default_color)
    | [c] => (c, c)
    | [c0; c1] =>
        (c0, "linear-gradient(45deg, " +:+ c0 +:+ " 50%, " +:+ c1 +:+ " 50%)")
    | (c0 :: _) as colors =>
        (c0, "linear-gradient(45deg, "
             +:+ Py.join ", " (gradient_stops colors) +:+ ")")
    end.

Definition format_types (tys : list string) : string := Py.join ", " tys.

(** ** [create_entity_html] *)

Definition nl : string := String "010"%char EmptyString.

Fixpoint indent (n : nat) : string :=
  match n with
  | O => EmptyString
  | S n' => String " "%char (indent n')
  end.

(** [name="value"] *)
Definition attr (name value : string) : string :=
  name +:+ "=" +:+ PyLib.dq +:+ value +:+ PyLib.dq.

Definition occurrence_suffix (entity : EntitySpan.t) : string :=
  if EntitySpan.occurrence_id entity >? 1
  then "<sup>" +:+ Py.str_of_int (EntitySpan.occurrence_id entity) +:+ "</sup>"
  else "".

(** [(multi_label_class, css_variables, type_count_attr)] *)
Definition multi_label_style (entity : EntitySpan.t) : string * string * string :=
  let tys := EntitySpan.types entity in
  if (1 <? length tys)%nat then
    let type_count_attr :=
      attr "data-type-count" (Py.str_of_int (Z.of_nat (length tys))) in
    match matched_colors tys with
    | c0 :: c1 :: more =>
        let css_variables :=
          "--primary-color: " +:+ c0 +:+ "; --secondary-color: " +:+ c1 +:+ ";" in
        match more with
        | c2 :: _ =>
            ("triple-label",
             css_variables +:+ " --tertiary-color: " +:+ c2 +:+ ";",
             type_count_attr)
        | [] => ("multi-label", css_variables, type_count_attr)
        end
    | _ => ("multi-label", "", type_count_attr)
    end
  else ("", "", "").

(** One [<li>] of the type list. *)
Definition type_item (entity_type : string) : string :=
  let color := default default_color (dict_get entity_colors entity_type) in
  "<li " +:+ attr "class" "type-item" +:+ " "
  +:+ attr "style" ("border-left: 3px solid " +:+ color +:+ ";") +:+ ">"
  +:+ entity_type +:+ "</li>".

Definition tooltip_html (entity : EntitySpan.t) : string :=
  nl +:+ indent 8 +:+ "<div " +:+ attr "class" "entity-tooltip" +:+ ">"
  +:+ nl +:+ indent 12 +:+ "<div " +:+ attr "class" "tooltip-section" +:+ ">"
  +:+ nl +:+ indent 16 +:+ "<span " +:+ attr "class" "tooltip-label"
  +:+ ">Source:</span> " +:+ source_labels (EntitySpan.source entity)
  +:+ nl +:+ indent 12 +:+ "</div>"
  +:+ nl +:+ indent 12 +:+ "<div " +:+ attr "class" "tooltip-section" +:+ ">"
  +:+ nl +:+ indent 16 +:+ "<span " +:+ attr "class" "tooltip-label"
  +:+ ">Position:</span> " +:+ Py.str_of_int (EntitySpan.start entity)
  +:+ "-" +:+ Py.str_of_int (EntitySpan.end_ entity)
  +:+ nl +:+ indent 12 +:+ "</div>"
  +:+ nl +:+ indent 12 +:+ "<div " +:+ attr "class" "tooltip-section" +:+ ">"
  +:+ nl +:+ indent 16 +:+ "<span " +:+ attr "class" "tooltip-label"
  +:+ ">Types:</span>"
  +:+ nl +:+ indent 16 +:+ "<ul " +:+ attr "class" "type-list" +:+ ">"
  +:+ nl +:+ indent 8
  +:+ Py.concat (map type_item (EntitySpan.types entity))
  +:+ nl +:+ indent 16 +:+ "</ul>"
  +:+ nl +:+ indent 12 +:+ "</div>"
  +:+ nl +:+ indent 8 +:+ "</div>"
  +:+ nl +:+ indent 8.

(** Everything of the returned string before the escaped span text: the
    opening [<span ...>] tag. *)
Definition opening_tag (entity : EntitySpan.t) (is_primary : bool) : string :=
  let '(primary_color, background) :=
    get_combined_colors (EntitySpan.types entity) in
  let opacity := if is_primary then "0.8" else "0.4" in
  let '(multi_label_class, css_variables, type_count_attr) :=
    multi_label_style entity in
  let types_attr := attr "data-types" (Py.join "|" (EntitySpan.types entity)) in
  let background_style :=
    if (1 <? length (EntitySpan.types entity))%nat
    then "background: " +:+ background +:+ ";"
    else "background-color: " +:+ background +:+ ";" in
  "<span class=" +:+ PyLib.dq +:+ "entity "
  +:+ source_name (EntitySpan.source entity) +:+ " " +:+ multi_label_class
  +:+ PyLib.dq +:+ " "
  +:+ "style=" +:+ PyLib.dq +:+ background_style +:+ " " +:+ css_variables
  +:+ " opacity: " +:+ opacity +:+ "; "
  +:+ "border: 1px solid " +:+ primary_color +:+ ";" +:+ PyLib.dq +:+ " "
  +:+ types_attr +:+ " " +:+ type_count_attr +:+ ">".

Definition create_entity_html (entity : EntitySpan.t) (is_primary : bool)
    : string :=
  opening_tag entity is_primary
  +:+ PyLib.html_escape (EntitySpan.text entity) +:+ occurrence_suffix entity
  +:+ tooltip_html entity
  +:+ "</span>".

(** ** [markup_text] *)

(** [min(e.start for e in group)] and [max(e.end for e in group)].  Both
    raise on an empty group; [resolve_overlaps] yields none
    ([resolve_overlaps_nonempty]), and the [0] stands for the raise. *)
Definition group_start (group : list EntitySpan.t) : Z :=
  default 0 (PyLib.min_of (map EntitySpan.start group)).

Definition group_end (group : list EntitySpan.t) : Z :=
  default 0 (PyLib.max_of (map EntitySpan.end_ group)).

Definition span_length (x : EntitySpan.t) : Z :=
  EntitySpan.end_ x - EntitySpan.start x.

(** [secondaries = [e for e in group if e != primary]] *)
Definition secondaries_of (primary : EntitySpan.t) (group : list EntitySpan.t)
    : list EntitySpan.t :=
  List.filter (fun e => negb (bool_decide (e = primary))) group.

(** The summary of one secondary: source label, colon, joined types. *)
Definition secondary_summary (secondary : EntitySpan.t) : string :=
  source_labels (EntitySpan.source secondary) +:+ ": "
  +:+ format_types (EntitySpan.types secondary).

(** The Python literals spell the line breaks of the extra text as a
    backslash followed by [n]; so do these. *)
Definition tooltip_extra (secondary_info : list string) : string :=
  "\nAlso annotated as:\n" +:+ Py.join "\n" secondary_info.

(** The [else:] branch for a group of several spans. *)
Definition render_overlap_group (group : list EntitySpan.t) : string :=
  match PyLib.max_by span_length group with
  | None => ""
  | Some primary =>
      let secondaries := secondaries_of primary group in
      let primary_html := create_entity_html primary true in
      let secondary_info := map secondary_summary secondaries in
      match secondary_info with
      | [] => primary_html
      | _ :: _ =>
          PyLib.replace primary_html ("title=" +:+ PyLib.dq)
            ("title=" +:+ PyLib.dq +:+ tooltip_extra secondary_info +:+ "\n")
      end
  end.

Definition render_group (group : list EntitySpan.t) : string :=
  match group with
  | [e] => create_entity_html e true
  | _ => render_overlap_group group
  end.

(** One round of [for group in overlap_groups:]; the state is
    [(result, last_pos)]. *)
Definition markup_step (passage : string) (st : list string * Z)
    (group : list EntitySpan.t) : list string * Z :=
  let '(result, last_pos) := st in
  let result1 :=
    if group_start group >? last_pos
    then result ++ [PyLib.html_escape (Py.slice passage last_pos (group_start group))]
    else result in
  (result1 ++ [render_group group], group_end group).

Definition markup_text (passage : string) (entities : list EntitySpan.t)
    : string :=
  match entities with
  | [] => PyLib.html_escape passage
  | _ :: _ =>
      let '(result, last_pos) :=
        fold_left (markup_step passage) (resolve_overlaps entities) ([], 0) in
      let result' :=
        if last_pos <? Py.len passage
        then result ++ [PyLib.html_escape (Py.slice_from passage last_pos)]
        else result in
      Py.concat result'
  end.

(** ** [compare_annotations] *)

(** [(e.start, e.end, tuple(sorted(e.types)))] *)
Definition span_triple (e : EntitySpan.t) : Z * Z * list string :=
  (EntitySpan.start e, EntitySpan.end_ e,
   PyLib.sorted String.leb (EntitySpan.types e)).

Definition span_position (e : EntitySpan.t) : Z * Z :=
  (EntitySpan.start e, EntitySpan.end_ e).

Definition span_set (l : list EntitySpan.t) : gset (Z * Z * list string) :=
  list_to_set (map span_triple l).

Definition position_set (l : list EntitySpan.t) : gset (Z * Z) :=
  list_to_set (map span_position l).

(** [{(s, e) for s, e, _ in gt_spans & model_spans}] *)
Definition exact_match_positions (ground_truth_l model_entities : list EntitySpan.t)
    : gset (Z * Z) :=
  set_map (fun t : Z * Z * list string => fst t)
    (span_set ground_truth_l ∩ span_set model_entities).

(** [len(s)] of a set *)
Definition set_len `{Countable A} (s : gset A) : Z := Z.of_nat (size s).

Definition compare_annotations (ground_truth_l model_entities : list EntitySpan.t)
    : ComparisonResult.t :=
  let gt_spans := span_set ground_truth_l in
  let model_spans := span_set model_entities in
  let gt_positions := position_set ground_truth_l in
  let model_positions := position_set model_entities in
  let overlapping_positions := gt_positions ∩ model_positions in
  {| ComparisonResult.exact_matches := set_len (gt_spans ∩ model_spans);
     ComparisonResult.partial_matches :=
       set_len (overlapping_positions
                ∖ exact_match_positions ground_truth_l model_entities);
     ComparisonResult.type_mismatches := 0;
     ComparisonResult.ground_truth_only := set_len (gt_spans ∖ model_spans);
     ComparisonResult.model_only := set_len (model_spans ∖ gt_spans);
     ComparisonResult.total_ground_truth := set_len gt_spans;
     ComparisonResult.total_model := set_len model_spans |}.

(** ** The report loop of [generate_html_report] *)

(** [[e for e in all_entities if e.source == src]] *)
Definition by_source (src : Source) (all_entities : list EntitySpan.t)
    : list EntitySpan.t :=
  List.filter (fun e => bool_decide (EntitySpan.source e = src)) all_entities.

(** The [setattr] loop: six counters are added, [type_mismatches] is not
    in its list. *)
Definition accumulate (total r : ComparisonResult.t) : ComparisonResult.t :=
  {| ComparisonResult.exact_matches :=
       ComparisonResult.exact_matches total + ComparisonResult.exact_matches r;
     ComparisonResult.partial_matches :=
       ComparisonResult.partial_matches total + ComparisonResult.partial_matches r;
     ComparisonResult.type_mismatches := ComparisonResult.type_mismatches total;
     ComparisonResult.ground_truth_only :=
       ComparisonResult.ground_truth_only total
       + ComparisonResult.ground_truth_only r;
     ComparisonResult.model_only :=
       ComparisonResult.model_only total + ComparisonResult.model_only r;
     ComparisonResult.total_ground_truth :=
       ComparisonResult.total_ground_truth total
       + ComparisonResult.total_ground_truth r;
     ComparisonResult.total_model :=
       ComparisonResult.total_model total + ComparisonResult.total_model r |}.

(** The comparisons of one record: [(mistral_comparison, gpt4_comparison)]. *)
Definition item_comparisons (item : Item)
    : ComparisonResult.t * ComparisonResult.t :=
  let all_entities := extract_entities item in
  let gt := by_source ground_truth all_entities in
  (compare_annotations gt (by_source mistral all_entities),
   compare_annotations gt (by_source gpt4 all_entities)).

(** The three highlighted renderings of one record. *)
Definition item_markup (item : Item) : string * string * string :=
  let all_entities := extract_entities item in
  (markup_text (item_text item) (by_source ground_truth all_entities),
   markup_text (item_text item) (by_source mistral all_entities),
   markup_text (item_text item) (by_source gpt4 all_entities)).

(** [total_comparisons] after the loop over the records that were parsed
    and processed (a line that raises adds nothing). *)
Definition total_comparisons (items : list Item)
    : ComparisonResult.t * ComparisonResult.t :=
  fold_left
    (fun totals item =>
       (accumulate (fst totals) (fst (item_comparisons item)),
        accumulate (snd totals) (snd (item_comparisons item))))
    items (ComparisonResult.init, ComparisonResult.init).

(** The quotients the summary table prints (as percentages with two
    decimals): [exact_matches / max(total_model, 1)] and
    [exact_matches / max(total_ground_truth, 1)], kept exact here. *)
Definition precision (r : ComparisonResult.t) : Q :=
  (inject_Z (ComparisonResult.exact_matches r)
   / inject_Z (Z.max (ComparisonResult.total_model r) 1))%Q.

Definition recall (r : ComparisonResult.t) : Q :=
  (inject_Z (ComparisonResult.exact_matches r)
   / inject_Z (Z.max (ComparisonResult.total_ground_truth r) 1))%Q.

(** The F1 score of the summary table,
    [2 * p * r / max(p + r, 0.001)] for the precision [p] and recall [r],
    kept exact like them. *)
Definition f1_score (r : ComparisonResult.t) : Q :=
  (2 * precision r * recall r / Qmax (precision r + recall r) (1 # 1000))%Q.

(** * Vocabulary of the properties *)

(** A boolean comparison read as a relation. *)
Definition holds {A} (le : A -> A -> bool) : relation A :=
  fun x y => le x y = true.

(** The span lies inside the passage, is as long as its text, and its
    text is the passage read between its offsets. *)
Definition span_well_placed (passage : string) (e : EntitySpan.t) : Prop :=
  0 <= EntitySpan.start e
  /\ EntitySpan.end_ e = EntitySpan.start e + Py.len (EntitySpan.text e)
  /\ EntitySpan.end_ e <= Py.len passage
  /\ EntitySpan.text e
     = Py.slice passage (EntitySpan.start e) (EntitySpan.end_ e).

(** A span that takes up at least one character. *)
Definition proper_span (e : EntitySpan.t) : Prop :=
  EntitySpan.start e < EntitySpan.end_ e.

(** The order [extract_entities] sorts by. *)
Definition sorted_by_key (l : list EntitySpan.t) : Prop :=
  StronglySorted (holds key_le) l.

(** [x] and [y] are joined by a chain of members of [g], each overlapping
    the next. *)
Definition chained (g : list EntitySpan.t) : relation EntitySpan.t :=
  rtc (fun a b => In a g /\ In b g /\ overlaps a b = true).

(** Everything in [g] ends before anything in [l] starts. *)
Definition ends_before (g l : list EntitySpan.t) : Prop :=
  forall x y, In x g -> In y l -> EntitySpan.end_ x <= EntitySpan.start y.

(** A group that is not empty and whose members are all chained to one
    another. *)
Definition well_chained (g : list EntitySpan.t) : Prop :=
  g <> [] /\ forall x y, In x g -> In y g -> chained g x y.

(** What the loop keeps true: the closed [groups] are chained, end before
    one another in order, and end before everything still to come; the
    open group is chained; what is still to come is in start order and
    made of proper spans. *)
Record loop_inv (groups : list (list EntitySpan.t))
    (cur rest : list EntitySpan.t) : Prop := {
  inv_ordered : ForallOrdPairs ends_before groups;
  inv_closed : Forall (fun g => ends_before g (cur ++ rest)) groups;
  inv_groups : Forall well_chained groups;
  inv_cur : well_chained cur;
  inv_sorted :
    StronglySorted (fun a b => EntitySpan.start a <= EntitySpan.start b)
      (cur ++ rest);
  inv_proper : Forall proper_span (cur ++ rest)
}.

(** The spans one annotation adds: one per occurrence, numbered from the
    counter of its span text onwards. *)
Definition numbered_spans (src : Source) (span_text : string)
    (tys : list string) (base : Z) (occs : list (Z * Z)) : list EntitySpan.t :=
  imap (fun i occ =>
          EntitySpan.mk (fst occ) (snd occ) span_text tys src
            (base + Z.of_nat i + 1)) occs.

(** What every aggregate satisfies: exact matches do not exceed either
    total. *)
Definition counts_bounded (r : ComparisonResult.t) : Prop :=
  0 <= ComparisonResult.exact_matches r <= ComparisonResult.total_model r
  /\ ComparisonResult.exact_matches r <= ComparisonResult.total_ground_truth r.

(** [num / den], and [0] when [den] is [0]. *)
Definition ratio_or_zero (num den : Z) : Q :=
  if den =? 0 then 0%Q else (inject_Z num / inject_Z den)%Q.

(** The characters [html.escape] is there to remove. *)
Definition markup_char (c : ascii) : bool :=
  Ascii.eqb c "<"%char || Ascii.eqb c ">"%char
  || Ascii.eqb c "034"%char || Ascii.eqb c "'"%char.

(** All characters of a string pass a test. *)
Fixpoint string_forallb (f : ascii -> bool) (s : string) : bool :=
  match s with
  | EmptyString => true
  | String c s' => f c && string_forallb f s'
  end.

(** ** The layout of the rendered passage *)

(** The passage text emitted before a group that starts at [start]. *)
Definition gap_text (passage : string) (last_pos start : Z) : string :=
  if start >? last_pos then Py.slice passage last_pos start else "".

(** The passage text emitted after the last group. *)
Definition tail_text (passage : string) (last_pos : Z) : string :=
  if last_pos <? Py.len passage then Py.slice_from passage last_pos else "".

(** The output described group by group: the gap before each group, what
    stands for the group, and the rest of the passage after the last
    group; [on_text] is applied to passage text, [on_group] to a group. *)
Fixpoint layout (on_text : string -> string)
    (on_group : list EntitySpan.t -> string) (passage : string)
    (groups : list (list EntitySpan.t)) (last_pos : Z) : string :=
  match groups with
  | [] => on_text (tail_text passage last_pos)
  | g :: gs =>
      on_text (gap_text passage last_pos (group_start g))
      +:+ on_group g
      +:+ layout on_text on_group passage gs (group_end g)
  end.



(** ** Sample records and span lists *)

(** The record of the counterexample: a label whose span string is empty. *)
Definition empty_span_item : Item :=
  {| item_text := "ab";
     labels := Some [ {| span := ""; ann_types := ["E21 Person"] |} ];
     mistral_small_3_2_output := None;
     gpt_4o_mini_output := None |}.

(** Three proper spans in order, the first two overlapping. *)
Definition overlap_demo : list EntitySpan.t :=
  [ EntitySpan.mk 0 5 "hello" ["E21 Person"] ground_truth 1;
    EntitySpan.mk 3 8 "lo wo" ["E53 Place"] ground_truth 1;
    EntitySpan.mk 10 12 "ld" ["E74 Group"] ground_truth 1 ].

(** A record whose ground truth has an empty span string next to two
    proper ones: the passage [abcd] with the labels [bcd], the empty
    string and [c]. *)
Definition zero_width_item : Item :=
  {| item_text := "abcd";
     labels := Some [ {| span := "bcd"; ann_types := ["E21 Person"] |};
                      {| span := ""; ann_types := ["E53 Place"] |};
                      {| span := "c"; ann_types := ["E74 Group"] |} ];
     mistral_small_3_2_output := None;
     gpt_4o_mini_output := None |}.

(** Its ground-truth spans, as the report loop selects them. *)
Definition zero_width_spans : list EntitySpan.t :=
  by_source ground_truth (extract_entities zero_width_item).

(** Span lists with the span sets of the comparison example. *)
Definition example_ground_truth : list EntitySpan.t :=
  [ EntitySpan.mk 0 5 "Paris" ["A"] ground_truth 1 ].

Definition example_model : list EntitySpan.t :=
  [ EntitySpan.mk 0 5 "Paris" ["A"] mistral 1;
    EntitySpan.mk 10 15 "Seine" ["B"] mistral 1 ].

(** A record with three ground-truth spans, all found by the first model
    together with one more. *)
Definition report_demo_item : Item :=
  {| item_text := "the cat and the dog and the end";
     labels := Some [ {| span := "the"; ann_types := ["E21 Person"] |} ];
     mistral_small_3_2_output :=
       Some [ {| span := "the"; ann_types := ["E21 Person"] |};
              {| span := "dog"; ann_types := ["E19 Physical Thing"] |} ];
     gpt_4o_mini_output := None |}.

(** A record whose only label occurs three times in the passage. *)
Definition three_occurrences_item : Item :=
  {| item_text := "the cat and the dog and the end";
     labels := Some [ {| span := "the"; ann_types := ["E21 Person"] |} ];
     mistral_small_3_2_output :=
       Some [ {| span := "cat"; ann_types := ["E19 Physical Thing"] |} ];
     gpt_4o_mini_output := None |}.

(** A record with two overlapping ground-truth spans, the second reaching
    past the end of the first. *)
Definition overhang_item : Item :=
  {| item_text := "abcdXYgh";
     labels := Some [ {| span := "abcd"; ann_types := ["E21 Person"] |};
                      {| span := "dXY"; ann_types := ["E53 Place"] |} ];
     mistral_small_3_2_output := None;
     gpt_4o_mini_output := None |}.

(** Its two spans. *)
Definition overhang_primary : EntitySpan.t :=
  EntitySpan.mk 0 4 "abcd" ["E21 Person"] ground_truth 1.

Definition overhang_secondary : EntitySpan.t :=
  EntitySpan.mk 3 6 "dXY" ["E53 Place"] ground_truth 1.

(** Its ground-truth spans, as the report loop selects them. *)
Definition overhang_spans : list EntitySpan.t :=
  by_source ground_truth (extract_entities overhang_item).

(** A record whose label carries type strings with markup in them. *)
Definition markup_in_types_item : Item :=
  {| item_text := "Paris <3";
     labels :=
       Some [ {| span := "Paris";
                 ann_types := ["<b>"; "x" +:+ PyLib.dq +:+ " y=" +:+ PyLib.dq +:+ "z"] |} ];
     mistral_small_3_2_output := None;
     gpt_4o_mini_output := None |}.

(** Its ground-truth rendering. *)
Definition markup_in_types_output : string :=
  markup_text (item_text markup_in_types_item)
    (by_source ground_truth (extract_entities markup_in_types_item)).

(** ** Vocabulary of the further properties *)

(** The annotation array [extract_entities] reads for a source. *)
Definition annotations_of (src : Source) (item : Item) : list Annotation :=
  default []
    match src with
    | ground_truth => labels item
    | mistral => mistral_small_3_2_output item
    | gpt4 => gpt_4o_mini_output item
    end.

(** [e] was made from an entry of [anns]: it has the entry's span string
    and types, sits at one of the occurrences of that string, and counts
    from 1. *)
Definition stems_from (passage : string) (anns : list Annotation)
    (e : EntitySpan.t) : Prop :=
  exists a, In a anns
    /\ EntitySpan.text e = span a
    /\ EntitySpan.types e = ann_types a
    /\ In (EntitySpan.start e, EntitySpan.end_ e)
         (find_all_occurrences passage (span a))
    /\ 1 <= EntitySpan.occurrence_id e.

(** The spans of source [src] whose text is [s]. *)
Definition spans_with (src : Source) (s : string) (l : list EntitySpan.t)
    : list EntitySpan.t :=
  List.filter (fun e => bool_decide (EntitySpan.text e = s)) (by_source src l).

(** [e] stems from the annotation array of its own source. *)
Definition from_item (item : Item) (e : EntitySpan.t) : Prop :=
  stems_from (item_text item) (annotations_of (EntitySpan.source e) item) e.

(** No counter of [span_counters] is negative. *)
Definition counters_ok (st : ExtractState) : Prop :=
  forall s, 0 <= counter_get (fst st) s.

(** What the rounds of one source keep true: the spans of that source
    with a given text carry, in the order they were appended, the indices
    1, 2, ... up to the current counter of that text. *)
Definition ids_counted (src : Source) (st : ExtractState) : Prop :=
  forall s,
    0 <= counter_get (fst st) s
    /\ map EntitySpan.occurrence_id (spans_with src s (snd st))
       = map Z.of_nat (List.seq 1 (Z.to_nat (counter_get (fst st) s))).

(** Each span ends before the later ones start. *)
Definition separated (l : list EntitySpan.t) : Prop :=
  StronglySorted
    (fun a b : EntitySpan.t => EntitySpan.end_ a <= EntitySpan.start b) l.

(** The rendering of spans that each stand alone: the passage text up to
    a span, the HTML of the span, and so on from the end of the span. *)
Fixpoint render_spans (passage : string) (l : list EntitySpan.t)
    (last_pos : Z) : string :=
  match l with
  | [] => PyLib.html_escape (tail_text passage last_pos)
  | e :: l' =>
      PyLib.html_escape (gap_text passage last_pos (EntitySpan.start e))
      +:+ create_entity_html e true
      +:+ render_spans passage l' (EntitySpan.end_ e)
  end.

(** The passage text under a group, from its first start to its last end. *)
Definition group_interval_text (passage : string) (g : list EntitySpan.t)
    : string :=
  Py.slice passage (group_start g) (group_end g).

(** The two results of [get_combined_colors] as a function of the table
    colours of the types alone. *)
Definition colors_of_matched (colors : list string) : string * string :=
  match colors with
  | [] => (default_color, default_color)
  | [c] => (c, c)
  | [c0; c1] =>
      (c0, "linear-gradient(45deg, " +:+ c0 +:+ " 50%, " +:+ c1 +:+ " 50%)")
  | c0 :: _ =>
      (c0, "linear-gradient(45deg, "
           +:+ Py.join ", " (gradient_stops colors) +:+ ")")
  end.

(** Two spans with the same offsets and the same types up to order. *)
Definition same_span (e e' : EntitySpan.t) : Prop :=
  EntitySpan.start e = EntitySpan.start e'
  /\ EntitySpan.end_ e = EntitySpan.end_ e'
  /\ Permutation (EntitySpan.types e) (EntitySpan.types e').

(** Every span of [l] has a counterpart in [l']. *)
Definition covered_by (l l' : list EntitySpan.t) : Prop :=
  forall e, In e l -> exists e', In e' l' /\ same_span e e'.

(** The relations between the counters that hold for one comparison and
    survive the summing. *)
Definition counts_add_up (r : ComparisonResult.t) : Prop :=
  ComparisonResult.exact_matches r + ComparisonResult.ground_truth_only r
  = ComparisonResult.total_ground_truth r
  /\ ComparisonResult.exact_matches r + ComparisonResult.model_only r
     = ComparisonResult.total_model r
  /\ ComparisonResult.type_mismatches r = 0
  /\ 0 <= ComparisonResult.partial_matches r
  /\ ComparisonResult.partial_matches r <= ComparisonResult.ground_truth_only r
  /\ ComparisonResult.partial_matches r <= ComparisonResult.model_only r.

(** Three spans that do not touch. *)
Definition separated_demo : list EntitySpan.t :=
  [ EntitySpan.mk 0 3 "the" ["E21 Person"] ground_truth 1;
    EntitySpan.mk 3 7 " cat" ["E19 Physical Thing"] ground_truth 1;
    EntitySpan.mk 12 15 "the" ["E21 Person"] ground_truth 2 ].

(** The same span set written in two ways: reordered, with a repeated
    span and shuffled types; and plain, with other texts, source and
    occurrence indices. *)
Definition reordered_ground_truth : list EntitySpan.t :=
  [ EntitySpan.mk 10 15 "Seine" ["B"; "A"] ground_truth 1;
    EntitySpan.mk 0 5 "Paris" ["A"] ground_truth 1;
    EntitySpan.mk 0 5 "Paris" ["A"] ground_truth 2 ].

Definition plain_ground_truth : list EntitySpan.t :=
  [ EntitySpan.mk 0 5 "" ["A"] mistral 0;
    EntitySpan.mk 10 15 "" ["A"; "B"] mistral 0 ].

(** ** The frame of a rendered group *)

(** The string the [replace] of the several-span branch looks for. *)
Definition title_attr : string := "title=" +:+ PyLib.dq.

(** What [markup_text] does to a piece of the HTML of the longest span
    [primary] of a group: nothing when the group is a single span or has
    no other member, otherwise the [replace] of the several-span branch. *)
Definition group_wrap (g : list EntitySpan.t) (primary : EntitySpan.t)
    (html : string) : string :=
  match g with
  | [_] => html
  | _ =>
      match map secondary_summary (secondaries_of primary g) with
      | [] => html
      | info =>
          PyLib.replace html title_attr
            (title_attr +:+ tooltip_extra info +:+ "\n")
      end
  end.




(** The characters [str] of an int is made of. *)
Definition int_char (c : ascii) : bool :=
  Ascii.eqb c "-" || (("0" <=? c)%char && (c <=? "9")%char).

(** The last character of a string is [q]. *)
Fixpoint ends_with (q : ascii) (s : string) : bool :=
  match s with
  | EmptyString => false
  | String c EmptyString => Ascii.eqb c q
  | String _ s' => ends_with q s'
  end.

(** ** Superscripts in the output *)

(** The string has no [<]. *)
Definition no_angle (s : string) : bool :=
  string_forallb (fun c => negb (Ascii.eqb c "<")) s.

(** What follows a [<] shows, within the string, that no [<su] starts
    there: a character other than [s], or [s] and a character other than
    [u]. *)
Definition angle_guard (s : string) : bool :=
  match s with
  | String c1 s' =>
      if Ascii.eqb c1 "s"
      then match s' with
           | String c2 _ => negb (Ascii.eqb c2 "u")
           | EmptyString => false
           end
      else true
  | EmptyString => false
  end.

(** Every [<] of the string is guarded in that way: the string holds no
    [<su], and none comes about when something is put behind it. *)
Fixpoint sup_free (s : string) : bool :=
  match s with
  | EmptyString => true
  | String c s' => (negb (Ascii.eqb c "<") || angle_guard s') && sup_free s'
  end.

(** The layout from [last_pos] up to the offset [stop] at which the next
    group starts: the groups in between with the gaps before them, and
    the gap before [stop]. *)
Fixpoint layout_until (on_text : string -> string)
    (on_group : list EntitySpan.t -> string) (passage : string)
    (groups : list (list EntitySpan.t)) (last_pos stop : Z) : string :=
  match groups with
  | [] => on_text (gap_text passage last_pos stop)
  | g :: gs =>
      on_text (gap_text passage last_pos (group_start g))
      +:+ on_group g
      +:+ layout_until on_text on_group passage gs (group_end g) stop
  end.

(** A record whose ground truth has the label [the], which occurs three
    times, and the label [the dog], which lies over the second of these
    occurrences. *)
Definition overlapped_occurrence_item : Item :=
  {| item_text := "the cat and the dog and the end";
     labels := Some [ {| span := "the"; ann_types := ["E21 Person"] |};
                      {| span := "the dog";
                         ann_types := ["E19 Physical Thing"] |} ];
     mistral_small_3_2_output := None;
     gpt_4o_mini_output := None |}.

(** A record whose ground truth has the label [cat] before the label
    [the], which occurs three times away from it. *)
Definition three_and_cat_item : Item :=
  {| item_text := "the cat and the dog and the end";
     labels := Some [ {| span := "cat"; ann_types := ["E19 Physical Thing"] |};
                      {| span := "the"; ann_types := ["E21 Person"] |} ];
     mistral_small_3_2_output := None;
     gpt_4o_mini_output := None |}.

(** * Properties *)

(** ** Strings *)

Section StringFacts.

Lemma substring_length (s : string) : forall n m : nat,
  String.length (substring n m s) = Nat.min m (String.length s - n).
Proof.
  induction s as [|c s IH]; intros n m.
  - destruct n, m; reflexivity.
  - destruct n as [|n]; simpl.
    + destruct m as [|m]; simpl; [reflexivity|].
      rewrite IH. f_equal. f_equal. lia.
    + apply IH.
Qed.

Lemma substring_fits (s t : string) (n : nat) :
  substring n (String.length t) s = t ->
  (n + String.length t <= String.length s \/ t = "")%nat.
Proof.
  intros H. apply (f_equal String.length) in H.
  rewrite substring_length in H.
  destruct t as [|c t]; [by right|left].
  cbn [String.length] in *. lia.
Qed.

Lemma index_lower (s2 : string) : forall (n m : nat) (s1 : string),
  String.index n s1 s2 = Some m -> (n <= m)%nat.
Proof.
  induction s2 as [|c s2 IH]; intros n m s1; simpl.
  - destruct n; [|discriminate]. destruct s1; [|discriminate].
    intros [= <-]. lia.
  - destruct n as [|n].
    + intros _. lia.
    + destruct (String.index n s1 s2) eqn:E; [|discriminate].
      intros [= <-]. apply IH in E. lia.
Qed.

Lemma index_upper (s2 : string) : forall (n m : nat) (s1 : string),
  String.index n s1 s2 = Some m -> (m <= String.length s2)%nat.
Proof.
  induction s2 as [|c s2 IH]; intros n m s1; cbn [String.index].
  - destruct n; [|discriminate]. destruct s1; [|discriminate].
    intros [= <-]. simpl. lia.
  - cbn [String.length]. destruct n as [|n].
    + destruct (String.prefix s1 (String c s2)).
      * intros [= <-]. lia.
      * destruct (String.index 0 s1 s2) eqn:E; [|discriminate].
        intros [= <-]. apply IH in E. lia.
    + destruct (String.index n s1 s2) eqn:E; [|discriminate].
      intros [= <-]. apply IH in E. lia.
Qed.

End StringFacts.

Lemma filter_none {A} (f : A -> bool) (l : list A) :
  (forall x, In x l -> f x = false) -> List.filter f l = [].
Proof.
  induction l as [|a l IH]; simpl; intros H; [reflexivity|].
  rewrite (H a) by (by left). apply IH. intros x Hx. apply H. by right.
Qed.

(** ** [find_all_occurrences] returns, and returns the occurrences *)

Section FindAll.

Variables text span_text : string.

Lemma occurs_at_iff (i : nat) :
  occurs_at text span_text i = true
  <-> substring i (String.length span_text) text = span_text.
Proof. unfold occurs_at. apply String.eqb_eq. Qed.

Lemma find_nonneg (start : Z) :
  0 <= start ->
  Py.find text span_text start
  = match String.index (Z.to_nat start) span_text text with
    | Some pos => Z.of_nat pos
    | None => -1
    end.
Proof.
  intros H. unfold Py.find.
  destruct (Z.ltb_spec start 0); [lia|reflexivity].
Qed.

(** A hit of [find] is the first offset of [occurrence_offsets]. *)
Lemma offsets_hit (n m : nat) :
  String.index n span_text text = Some m ->
  occurrence_offsets text span_text n
  = m :: occurrence_offsets text span_text (S m).
Proof.
  intros H. unfold occurrence_offsets.
  pose proof (index_lower _ _ _ _ H) as Hlo.
  pose proof (index_upper _ _ _ _ H) as Hup.
  replace (S (String.length text) - n)%nat
    with ((m - n) + S (String.length text - m))%nat by lia.
  rewrite seq_app, List.filter_app.
  replace (n + (m - n))%nat with m by lia.
  rewrite filter_none.
  - simpl. rewrite (proj2 (occurs_at_iff m)) by (by apply index_correct1 with n).
    reflexivity.
  - intros p Hp. apply in_seq in Hp.
    apply not_true_iff_false. rewrite occurs_at_iff.
    apply (index_correct2 _ _ _ _ H); lia.
Qed.

(** A miss of [find] means there is no offset left. *)
Lemma offsets_miss (n : nat) :
  String.index n span_text text = None ->
  occurrence_offsets text span_text n = [].
Proof.
  intros H. unfold occurrence_offsets.
  destruct span_text as [|c s] eqn:Es.
  - apply index_correct4 in H.
    replace (S (String.length text) - n)%nat with 0%nat by lia. reflexivity.
  - apply filter_none. intros p Hp.
    apply in_seq in Hp. apply not_true_iff_false.
    unfold occurs_at. rewrite String.eqb_eq.
    apply (index_correct3 _ _ _ _ H); [discriminate|lia].
Qed.

(** The loop breaks before its fuel runs out, and what it has appended by
    then are the occurrences from [start] on. *)
Lemma find_all_loop_returns (fuel : nat) : forall (start : nat) acc,
  (1 <= fuel)%nat ->
  (String.length text + 2 <= fuel + start)%nat ->
  find_all_loop fuel text span_text (Z.of_nat start) acc
  = Some (acc ++ map (occurrence_pair span_text)
                   (occurrence_offsets text span_text start)).
Proof.
  induction fuel as [|fuel IH]; intros start acc Hpos Hfuel; simpl; [lia|].
  rewrite find_nonneg by lia. rewrite Nat2Z.id.
  destruct (String.index start span_text text) as [m|] eqn:E.
  - destruct (Z.eqb_spec (Z.of_nat m) (-1)); [lia|].
    pose proof (index_lower _ _ _ _ E).
    pose proof (index_upper _ _ _ _ E).
    replace (Z.of_nat m + 1) with (Z.of_nat (S m)) by lia.
    rewrite IH by lia.
    rewrite (offsets_hit _ _ E). simpl. rewrite <- app_assoc. reflexivity.
  - simpl. rewrite (offsets_miss _ E). simpl. by rewrite app_nil_r.
Qed.

Lemma find_all_occurrences_eq :
  find_all_occurrences text span_text
  = map (occurrence_pair span_text) (occurrence_offsets text span_text 0).
Proof.
  unfold find_all_occurrences, find_all_fuel.
  change 0 with (Z.of_nat 0). rewrite find_all_loop_returns by lia.
  reflexivity.
Qed.

End FindAll.

Lemma substring_clip (s : string) : forall n m : nat,
  substring n (Nat.min m (String.length s - n)) s = substring n m s.
Proof.
  induction s as [|c s IH]; intros n m.
  - destruct n, m; reflexivity.
  - destruct n as [|n]; cbn [String.length].
    + destruct m as [|m]; [reflexivity|].
      replace (Nat.min (S m) (S (String.length s) - 0))
        with (S (Nat.min m (String.length s - 0))) by lia.
      cbn [substring]. f_equal. apply IH.
    + cbn [substring]. apply IH.
Qed.

(** A Python slice that starts inside the text reads what [substring]
    reads. *)
Lemma slice_substring (s : string) (i : nat) (k : nat) :
  (i <= String.length s)%nat ->
  Py.slice s (Z.of_nat i) (Z.of_nat i + Z.of_nat k) = substring i k s.
Proof.
  intros Hi. unfold Py.slice, Py.clamp, Py.len.
  destruct (Z.ltb_spec (Z.of_nat i) 0); [lia|].
  destruct (Z.ltb_spec (Z.of_nat i + Z.of_nat k) 0); [lia|].
  rewrite <- (substring_clip s i k).
  f_equal; lia.
Qed.

Lemma sorted_filter_offsets (f : nat -> bool) (l : list nat) :
  StronglySorted Nat.lt l ->
  StronglySorted Z.lt (map Z.of_nat (List.filter f l)).
Proof.
  induction 1 as [|a l Hs IH Ha]; simpl; [constructor|].
  destruct (f a); [|exact IH]. simpl. constructor; [exact IH|].
  rewrite List.Forall_forall in *. intros z Hz.
  apply in_map_iff in Hz as (x & <- & Hx). apply filter_In in Hx as [Hx _].
  apply Ha in Hx. lia.
Qed.

Lemma seq_strongly_sorted (len start : nat) :
  StronglySorted Nat.lt (List.seq start len).
Proof.
  revert start. induction len as [|len IH]; intros start; simpl; constructor.
  - apply IH.
  - apply List.Forall_forall. intros x Hx. apply in_seq in Hx. lia.
Qed.

Lemma find_all_occurrences_In (text span_text : string) (i j : Z) :
  In (i, j) (find_all_occurrences text span_text)
  <-> (0 <= i <= Py.len text
       /\ j = i + Py.len span_text
       /\ Py.slice text i (i + Py.len span_text) = span_text).
Proof.
  rewrite find_all_occurrences_eq.
  rewrite in_map_iff. unfold occurrence_pair, occurrence_offsets.
  split.
  - intros (n & [= <- <-] & Hn). apply filter_In in Hn as [Hn Hocc].
    apply in_seq in Hn. apply occurs_at_iff in Hocc.
    unfold Py.len at 1. split; [lia|]. split; [reflexivity|].
    unfold Py.len. rewrite slice_substring by lia. exact Hocc.
  - intros (Hi & -> & Hs). exists (Z.to_nat i).
    unfold Py.len in *. rewrite Z2Nat.id by lia. split; [reflexivity|].
    apply filter_In. split; [apply in_seq; lia|].
    apply occurs_at_iff. rewrite <- Hs at 2.
    rewrite <- (Z2Nat.id i) at 2 3 by lia.
    rewrite slice_substring by lia. reflexivity.
Qed.

Lemma find_all_occurrences_ascending (text span_text : string) :
  StronglySorted Z.lt (map fst (find_all_occurrences text span_text)).
Proof.
  rewrite find_all_occurrences_eq, map_map. cbn [occurrence_pair fst].
  apply sorted_filter_offsets, seq_strongly_sorted.
Qed.

(** C4: [find_all_occurrences(T, S)] holds exactly the pairs
    [(i, i + len(S))] for the offsets [i] of [T] (from [0] to [len(T)])
    with [T[i:i+len(S)] == S], overlapping occurrences included, and lists
    them by strictly ascending [i]. *)
Theorem find_all_occurrences_exact (text span_text : string) :
  (forall i j : Z,
      In (i, j) (find_all_occurrences text span_text)
      <-> (0 <= i <= Py.len text
           /\ j = i + Py.len span_text
           /\ Py.slice text i (i + Py.len span_text) = span_text))
  /\ StronglySorted Z.lt (map fst (find_all_occurrences text span_text)).
Proof.
  split.
  - intros i j. apply find_all_occurrences_In.
  - apply find_all_occurrences_ascending.
Qed.

(** The two overlapping occurrences of the spec's example are both found. *)
Example find_all_overlapping :
  find_all_occurrences "aaa" "aa" = [(0, 2); (1, 3)].
Proof. reflexivity. Qed.

(** ** [sorted] permutes *)

Lemma insert_sorted_perm {A} (le : A -> A -> bool) (x : A) (l : list A) :
  Permutation (PyLib.insert_sorted le x l) (x :: l).
Proof.
  induction l as [|y l IH]; simpl; [reflexivity|].
  destruct (le x y); [reflexivity|].
  rewrite IH. apply perm_swap.
Qed.

Lemma sorted_perm {A} (le : A -> A -> bool) (l : list A) :
  Permutation (PyLib.sorted le l) l.
Proof.
  induction l as [|x l IH]; simpl; [reflexivity|].
  rewrite insert_sorted_perm. by constructor.
Qed.

Lemma sorted_In {A} (le : A -> A -> bool) (l : list A) (x : A) :
  In x (PyLib.sorted le l) <-> In x l.
Proof.
  split; apply Permutation_in; [|symmetry]; apply sorted_perm.
Qed.

(** ** What [extract_entities] puts into a span *)

Lemma occurrence_well_placed (passage span_text : string) (i j : Z) :
  In (i, j) (find_all_occurrences passage span_text) ->
  0 <= i /\ j = i + Py.len span_text /\ j <= Py.len passage
  /\ span_text = Py.slice passage i j.
Proof.
  intros H. apply find_all_occurrences_In in H as (Hi & -> & Hs).
  split; [lia|]. split; [reflexivity|]. split; [|by rewrite Hs].
  revert Hs. rewrite <- (Z2Nat.id i) by lia. unfold Py.len in *.
  rewrite slice_substring by lia. intros Hs.
  apply substring_fits in Hs as [Hs | ->]; [lia|]. simpl. lia.
Qed.

Section Extract.

Variable passage : string.

Lemma add_occurrence_placed src span_text tys (st : ExtractState) occ :
  In occ (find_all_occurrences passage span_text) ->
  Forall (span_well_placed passage) (snd st) ->
  Forall (span_well_placed passage)
    (snd (add_occurrence src span_text tys st occ)).
Proof.
  destruct st as [counters entities], occ as [i j]. simpl. intros Hin Hst.
  apply Forall_app. split; [exact Hst|].
  constructor; [|constructor].
  apply occurrence_well_placed in Hin. exact Hin.
Qed.

Lemma add_occurrences_placed src span_text tys occs : forall st : ExtractState,
  (forall occ, In occ occs -> In occ (find_all_occurrences passage span_text)) ->
  Forall (span_well_placed passage) (snd st) ->
  Forall (span_well_placed passage)
    (snd (fold_left (add_occurrence src span_text tys) occs st)).
Proof.
  induction occs as [|occ occs IH]; intros st Hocc Hst; simpl; [exact Hst|].
  apply IH.
  - intros o Ho. apply Hocc. by right.
  - apply add_occurrence_placed; [apply Hocc; by left|exact Hst].
Qed.

Lemma add_annotations_placed src anns : forall st : ExtractState,
  Forall (span_well_placed passage) (snd st) ->
  Forall (span_well_placed passage) (snd (add_annotations passage src anns st)).
Proof.
  unfold add_annotations. induction (default [] anns) as [|a l IH];
    intros st Hst; simpl; [exact Hst|].
  apply IH. unfold add_annotation. by apply add_occurrences_placed.
Qed.

End Extract.

Lemma collect_entities_placed (item : Item) :
  Forall (span_well_placed (item_text item)) (collect_entities item).
Proof.
  unfold collect_entities.
  repeat (apply add_annotations_placed; simpl).
  constructor.
Qed.

(** C3, as the code has it: every span of [extract_entities] has
    [start <= end], lies inside the passage, and carries the passage text
    between its offsets; [start < end] holds exactly for a non-empty span
    string. *)
Theorem extract_entities_spans (item : Item) (e : EntitySpan.t) :
  In e (extract_entities item) ->
  0 <= EntitySpan.start e <= EntitySpan.end_ e
  /\ EntitySpan.end_ e <= Py.len (item_text item)
  /\ EntitySpan.text e
     = Py.slice (item_text item) (EntitySpan.start e) (EntitySpan.end_ e)
  /\ (EntitySpan.start e < EntitySpan.end_ e <-> EntitySpan.text e <> "").
Proof.
  intros H. apply sorted_In in H.
  pose proof (collect_entities_placed item) as Hall.
  rewrite List.Forall_forall in Hall. apply Hall in H as (H0 & He & Hlen & Ht).
  unfold Py.len in *. repeat split; try lia; try exact Ht.
  - intros Hlt Heq. rewrite Heq in He. simpl in He. lia.
  - intros Hne. destruct (EntitySpan.text e) as [|c s]; [done|].
    cbn [String.length] in He. lia.
Qed.

Lemma extract_entities_spans_witness :
  let e := EntitySpan.mk 1 1 "" ["E21 Person"] ground_truth 2 in
  0 <= EntitySpan.start e <= EntitySpan.end_ e
  /\ EntitySpan.end_ e <= Py.len (item_text empty_span_item)
  /\ EntitySpan.text e
     = Py.slice (item_text empty_span_item) (EntitySpan.start e)
         (EntitySpan.end_ e)
  /\ (EntitySpan.start e < EntitySpan.end_ e <-> EntitySpan.text e <> "").
Proof.
  intros e. apply (extract_entities_spans empty_span_item e).
  vm_compute. right. left. reflexivity.
Defined.

(** C3 as stated fails: the empty span string is found at every offset of
    the passage, and each hit becomes a span with [start = end]. *)
Lemma extract_entities_empty_span_counterexample :
  ~ (forall (item : Item) (e : EntitySpan.t),
        In e (extract_entities item) ->
        EntitySpan.start e < EntitySpan.end_ e
        /\ EntitySpan.text e
           = Py.slice (item_text item) (EntitySpan.start e) (EntitySpan.end_ e)).
Proof.
  intros H.
  destruct (H empty_span_item (EntitySpan.mk 1 1 "" ["E21 Person"] ground_truth 2))
    as [Hlt _].
  - vm_compute. right. left. reflexivity.
  - simpl in Hlt. lia.
Qed.

(** ** [resolve_overlaps] *)

Section Overlaps.

Implicit Types (e x y z : EntitySpan.t) (g cur : list EntitySpan.t)
  (groups : list (list EntitySpan.t)).

Lemma overlaps_iff x y :
  overlaps x y = true
  <-> EntitySpan.start x < EntitySpan.end_ y
      /\ EntitySpan.end_ x > EntitySpan.start y.
Proof.
  unfold overlaps. rewrite andb_true_iff, Z.ltb_lt, Z.gtb_gt. reflexivity.
Qed.

Lemma overlaps_sym x y : overlaps x y = overlaps y x.
Proof.
  apply eq_true_iff_eq. rewrite !overlaps_iff. lia.
Qed.

Lemma ends_before_no_overlap g l x y :
  ends_before g l -> In x g -> In y l ->
  overlaps x y = false /\ overlaps y x = false.
Proof.
  intros H Hx Hy. specialize (H x y Hx Hy).
  split; apply not_true_iff_false; rewrite overlaps_iff; lia.
Qed.

Lemma key_le_start x y : key_le x y = true -> EntitySpan.start x <= EntitySpan.start y.
Proof.
  unfold key_le, sort_key. simpl.
  rewrite orb_true_iff, andb_true_iff, Z.ltb_lt, Z.eqb_eq. lia.
Qed.

Lemma chained_mono g g' x y :
  (forall a, In a g -> In a g') -> chained g x y -> chained g' x y.
Proof.
  intros Hsub. apply rtc_subrel. intros a b (Ha & Hb & Hab). auto.
Qed.

Lemma chained_sym g x y : chained g x y -> chained g y x.
Proof.
  induction 1 as [|a b c (Ha & Hb & Hab) _ IH]; [apply rtc_refl|].
  eapply rtc_r; [exact IH|]. rewrite overlaps_sym in Hab. auto.
Qed.

(** A span that overlaps a member of a chained group can be added to it. *)
Lemma well_chained_snoc cur e :
  well_chained cur -> existsb (overlaps e) cur = true ->
  well_chained (cur ++ [e]).
Proof.
  intros [Hne Hch] Hex. apply existsb_exists in Hex as (c & Hc & Hec).
  assert (Hsub : forall a, In a cur -> In a (cur ++ [e]))
    by (intros a Ha; apply in_or_app; by left).
  assert (Hee : In e (cur ++ [e])) by (apply in_or_app; right; by left).
  assert (Hlink : forall a, In a cur -> chained (cur ++ [e]) a e).
  { intros a Ha. eapply rtc_r.
    - apply (chained_mono cur); [exact Hsub|]. apply (Hch a c Ha Hc).
    - rewrite overlaps_sym in Hec. auto. }
  split; [by destruct cur|].
  intros x y Hx Hy.
  apply in_app_or in Hx as [Hx|[<-|[]]]; apply in_app_or in Hy as [Hy|[<-|[]]].
  - apply (chained_mono cur); auto.
  - auto.
  - apply chained_sym. auto.
  - apply rtc_refl.
Qed.

Lemma well_chained_singleton e : well_chained [e].
Proof.
  split; [done|]. intros x y [<-|[]] [<-|[]]. apply rtc_refl.
Qed.

Lemma ForallOrdPairs_snoc {A} (R : A -> A -> Prop) (l : list A) (a : A) :
  ForallOrdPairs R l -> Forall (fun b => R b a) l ->
  ForallOrdPairs R (l ++ [a]).
Proof.
  induction 1 as [|b l Hb Hl IH]; intros Ha; simpl.
  - constructor; constructor.
  - inversion Ha as [|? ? Hba Ha']; subst. constructor; [|by apply IH].
    apply Forall_app. split; [exact Hb|]. by constructor.
Qed.

Lemma ForallOrdPairs_lookup {A} (R : A -> A -> Prop) (l : list A) :
  ForallOrdPairs R l ->
  forall (i j : nat) (a b : A),
    (i < j)%nat -> l !! i = Some a -> l !! j = Some b -> R a b.
Proof.
  induction 1 as [|c l Hc Hl IH]; intros i j a b Hij Hi Hj; [done|].
  destruct j as [|j]; [lia|]. simpl in Hj.
  destruct i as [|i]; simpl in Hi.
  - injection Hi as ->. rewrite List.Forall_forall in Hc. apply Hc.
    apply list_elem_of_In. by eapply list_elem_of_lookup_2.
  - apply (IH i j); [lia|done|done].
Qed.

Lemma ends_before_app_assoc g cur e rest :
  ends_before g (cur ++ e :: rest) <-> ends_before g ((cur ++ [e]) ++ rest).
Proof. by rewrite <- app_assoc. Qed.

Lemma resolve_step_inv groups cur e rest :
  loop_inv groups cur (e :: rest) ->
  loop_inv (fst (resolve_step (groups, cur) e))
    (snd (resolve_step (groups, cur) e)) rest.
Proof.
  intros [Hord Hclosed Hgroups Hcur Hsorted Hproper]. unfold resolve_step.
  destruct (existsb (overlaps e) cur) eqn:Hex; simpl.
  - constructor; try done.
    + eapply List.Forall_impl; [|exact Hclosed].
      intros g Hg. by apply ends_before_app_assoc.
    + by apply well_chained_snoc.
    + by rewrite <- app_assoc.
    + by rewrite <- app_assoc.
  - assert (Hsuffix :
      StronglySorted (fun a b => EntitySpan.start a <= EntitySpan.start b)
        (e :: rest)).
    { clear -Hsorted. induction cur as [|c cur IH]; [exact Hsorted|].
      simpl in Hsorted. apply StronglySorted_inv in Hsorted as [Hs _]. auto. }
    assert (Hcur_before : ends_before cur (e :: rest)).
    { intros x y Hx Hy.
      assert (Hxe : EntitySpan.start x <= EntitySpan.start e).
      { clear -Hsorted Hx. induction cur as [|c cur IH]; [done|].
        simpl in Hsorted. apply StronglySorted_inv in Hsorted as [Hs Hc].
        destruct Hx as [<-|Hx]; [|auto].
        rewrite List.Forall_forall in Hc. apply Hc, in_or_app. right. by left. }
      assert (Hey : EntitySpan.start e <= EntitySpan.start y).
      { apply StronglySorted_inv in Hsuffix as [_ He].
        destruct Hy as [<-|Hy]; [lia|].
        rewrite List.Forall_forall in He. auto. }
      assert (Hpe : proper_span e).
      { rewrite List.Forall_forall in Hproper. apply Hproper, in_or_app.
        right. by left. }
      assert (Hno : overlaps e x = false).
      { apply not_true_iff_false. intros Ht.
        assert (existsb (overlaps e) cur = true)
          by (apply existsb_exists; eauto).
        congruence. }
      apply not_true_iff_false in Hno. rewrite overlaps_iff in Hno.
      unfold proper_span in Hpe. lia. }
    constructor.
    + apply ForallOrdPairs_snoc; [exact Hord|].
      eapply List.Forall_impl; [|exact Hclosed].
      intros g Hg x y Hx Hy. apply Hg; [done|]. apply in_or_app. by left.
    + apply Forall_app. split.
      * eapply List.Forall_impl; [|exact Hclosed].
        intros g Hg x y Hx Hy. apply Hg; [done|]. apply in_or_app. by right.
      * constructor; [|constructor]. exact Hcur_before.
    + apply Forall_app. split; [done|]. by constructor.
    + apply well_chained_singleton.
    + exact Hsuffix.
    + rewrite List.Forall_forall in *. intros y Hy. apply Hproper.
      apply in_or_app. by right.
Qed.

Lemma resolve_loop_inv (rest : list EntitySpan.t) : forall groups cur,
  loop_inv groups cur rest ->
  let '(groups', cur') := fold_left resolve_step rest (groups, cur) in
  loop_inv groups' cur' [].
Proof.
  induction rest as [|e rest IH]; intros groups cur Hinv; [exact Hinv|].
  cbn [fold_left]. apply resolve_step_inv in Hinv.
  destruct (resolve_step (groups, cur) e) as [groups1 cur1]. by apply IH.
Qed.

(** The groups are consecutive runs of the input. *)
Lemma resolve_loop_concat (rest : list EntitySpan.t) : forall groups cur,
  let '(groups', cur') := fold_left resolve_step rest (groups, cur) in
  List.concat (groups' ++ [cur']) = List.concat (groups ++ [cur]) ++ rest.
Proof.
  induction rest as [|e rest IH]; intros groups cur; cbn [fold_left].
  - by rewrite app_nil_r.
  - unfold resolve_step at 2.
    destruct (existsb (overlaps e) cur).
    + specialize (IH groups (cur ++ [e])).
      destruct (fold_left _ _ _) as [groups' cur']. rewrite IH.
      rewrite !concat_app. simpl. rewrite !app_nil_r, <- !app_assoc. done.
    + specialize (IH (groups ++ [cur]) [e]).
      destruct (fold_left _ _ _) as [groups' cur']. rewrite IH.
      rewrite !concat_app. simpl. rewrite !app_nil_r, <- !app_assoc. done.
Qed.

Lemma resolve_overlaps_concat (l : list EntitySpan.t) :
  List.concat (resolve_overlaps l) = l.
Proof.
  destruct l as [|first rest]; [reflexivity|]. unfold resolve_overlaps.
  pose proof (resolve_loop_concat rest [] [first]) as H.
  destruct (fold_left _ _ _) as [groups cur]. exact H.
Qed.

(** No group is empty, whatever the input. *)
Lemma resolve_loop_nonempty (rest : list EntitySpan.t) : forall groups cur,
  Forall (fun g => g <> []) groups -> cur <> [] ->
  let '(groups', cur') := fold_left resolve_step rest (groups, cur) in
  Forall (fun g => g <> []) (groups' ++ [cur']).
Proof.
  induction rest as [|e rest IH]; intros groups cur Hg Hc; cbn [fold_left].
  - apply Forall_app. split; [done|]. by constructor.
  - unfold resolve_step at 2. destruct (existsb (overlaps e) cur).
    + apply IH; [done|]. by destruct cur.
    + apply IH; [|done]. apply Forall_app. split; [done|]. by constructor.
Qed.

Lemma resolve_overlaps_nonempty (l : list EntitySpan.t) :
  Forall (fun g => g <> []) (resolve_overlaps l).
Proof.
  destruct l as [|first rest]; [constructor|]. unfold resolve_overlaps.
  pose proof (resolve_loop_nonempty rest [] [first]) as H.
  destruct (fold_left _ _ _) as [groups cur]. apply H; [constructor|done].
Qed.

Lemma sorted_by_key_start (l : list EntitySpan.t) :
  sorted_by_key l ->
  StronglySorted (fun a b => EntitySpan.start a <= EntitySpan.start b) l.
Proof.
  induction 1 as [|a l Hs IH Ha]; constructor; [exact IH|].
  eapply List.Forall_impl; [|exact Ha]. intros b. apply key_le_start.
Qed.

(** C5, for proper spans: on a list sorted by start ascending and end
    descending whose spans all have [start < end], the groups of
    [resolve_overlaps] are non-empty consecutive runs of the list, any two
    members of a group are joined by a chain of overlapping members, and
    members of different groups never overlap. *)
Theorem resolve_overlaps_groups (l : list EntitySpan.t) :
  sorted_by_key l -> Forall proper_span l ->
  List.concat (resolve_overlaps l) = l
  /\ Forall (fun g => g <> []) (resolve_overlaps l)
  /\ (forall g x y, In g (resolve_overlaps l) -> In x g -> In y g ->
        chained g x y)
  /\ (forall (i j : nat) g g' x y,
        i <> j ->
        resolve_overlaps l !! i = Some g -> resolve_overlaps l !! j = Some g' ->
        In x g -> In y g' -> overlaps x y = false).
Proof.
  intros Hsorted Hproper.
  split; [apply resolve_overlaps_concat|].
  split; [apply resolve_overlaps_nonempty|].
  destruct l as [|first rest]; [by split; [intros ? ? ? []|intros [] ? ? ? ? ? ?]|].
  unfold resolve_overlaps.
  assert (Hinv : loop_inv [] [first] rest).
  { constructor.
    - constructor.
    - constructor.
    - constructor.
    - apply well_chained_singleton.
    - by apply sorted_by_key_start.
    - exact Hproper. }
  apply resolve_loop_inv in Hinv.
  destruct (fold_left resolve_step rest ([], [first])) as [groups cur].
  destruct Hinv as [Hord Hclosed Hgroups Hcur _ _]. rewrite app_nil_r in Hclosed.
  assert (Hall : ForallOrdPairs ends_before (groups ++ [cur]))
    by (by apply ForallOrdPairs_snoc).
  split.
  - intros g x y Hg. apply in_app_or in Hg as [Hg|[<-|[]]].
    + rewrite List.Forall_forall in Hgroups. apply (Hgroups g Hg).
    + apply Hcur.
  - intros i j g g' x y Hij Hi Hj Hx Hy.
    destruct (Nat.lt_total i j) as [Hlt|[Heq|Hgt]]; [|done|].
    + pose proof (ForallOrdPairs_lookup _ _ Hall i j g g' Hlt Hi Hj) as Hb.
      apply (ends_before_no_overlap g g' x y Hb Hx Hy).
    + pose proof (ForallOrdPairs_lookup _ _ Hall j i g' g Hgt Hj Hi) as Hb.
      apply (ends_before_no_overlap g' g y x Hb Hy Hx).
Qed.

(** The chains need neither the order nor proper spans. *)
Lemma resolve_loop_chained (rest : list EntitySpan.t) : forall groups cur,
  Forall well_chained groups -> well_chained cur ->
  let '(groups', cur') := fold_left resolve_step rest (groups, cur) in
  Forall well_chained (groups' ++ [cur']).
Proof.
  induction rest as [|e rest IH]; intros groups cur Hg Hc; cbn [fold_left].
  - apply Forall_app. split; [done|]. by constructor.
  - unfold resolve_step at 2. destruct (existsb (overlaps e) cur) eqn:Hex.
    + apply IH; [done|]. by apply well_chained_snoc.
    + apply IH; [|apply well_chained_singleton].
      apply Forall_app. split; [done|]. by constructor.
Qed.

Lemma resolve_overlaps_chained (l : list EntitySpan.t) :
  Forall well_chained (resolve_overlaps l).
Proof.
  destruct l as [|first rest]; [constructor|]. unfold resolve_overlaps.
  pose proof (resolve_loop_chained rest [] [first]) as H.
  destruct (fold_left _ _ _) as [groups cur].
  apply H; [constructor|apply well_chained_singleton].
Qed.

End Overlaps.

Lemma resolve_overlaps_groups_witness :
  List.concat (resolve_overlaps overlap_demo) = overlap_demo
  /\ Forall (fun g => g <> []) (resolve_overlaps overlap_demo)
  /\ (forall g x y, In g (resolve_overlaps overlap_demo) -> In x g -> In y g ->
        chained g x y)
  /\ (forall (i j : nat) g g' x y,
        i <> j ->
        resolve_overlaps overlap_demo !! i = Some g ->
        resolve_overlaps overlap_demo !! j = Some g' ->
        In x g -> In y g' -> overlaps x y = false).
Proof.
  apply (resolve_overlaps_groups overlap_demo).
  - repeat constructor.
  - repeat constructor; unfold proper_span; simpl; lia.
Defined.

(** C5 as stated fails on a sorted list with a zero-width span: the span
    [(1,1)] closes the group of [(1,4)], and [(2,3)], which lies inside
    [(1,4)], lands in a later group. *)
Lemma resolve_overlaps_zero_width_counterexample :
  sorted_by_key zero_width_spans
  /\ ~ (forall (i j : nat) g g' x y,
          i <> j ->
          resolve_overlaps zero_width_spans !! i = Some g ->
          resolve_overlaps zero_width_spans !! j = Some g' ->
          In x g -> In y g' -> overlaps x y = false).
Proof.
  split.
  - vm_compute. repeat constructor.
  - intros H.
    specialize (H 3%nat 1%nat
                  [EntitySpan.mk 2 3 "c" ["E74 Group"] ground_truth 1]
                  [EntitySpan.mk 1 4 "bcd" ["E21 Person"] ground_truth 1]
                  (EntitySpan.mk 2 3 "c" ["E74 Group"] ground_truth 1)
                  (EntitySpan.mk 1 4 "bcd" ["E21 Person"] ground_truth 1)).
    discriminate H; [lia|reflexivity|reflexivity|by left|by left].
Qed.

(** ** [compare_annotations] *)

Section Compare.

Variables ground_truth_l model_entities : list EntitySpan.t.

Lemma span_set_position (t : Z * Z * list string) (l : list EntitySpan.t) :
  t ∈ span_set l -> fst t ∈ position_set l.
Proof.
  unfold span_set, position_set. rewrite !elem_of_list_to_set.
  rewrite !list_elem_of_fmap. intros (e & -> & He). by exists e.
Qed.

Lemma exact_positions_subset :
  exact_match_positions ground_truth_l model_entities
  ⊆ position_set ground_truth_l ∩ position_set model_entities.
Proof.
  intros p Hp. apply elem_of_map in Hp as (t & -> & Ht).
  apply elem_of_intersection in Ht as [Hg Hm].
  apply elem_of_intersection. split; by apply span_set_position.
Qed.

(** C7: [partial_matches] is the size of the position intersection minus
    the size of the set of exact-match positions, the latter being a
    subset of the former. *)
Theorem partial_matches_subtraction :
  exact_match_positions ground_truth_l model_entities
  ⊆ position_set ground_truth_l ∩ position_set model_entities
  /\ ComparisonResult.partial_matches
       (compare_annotations ground_truth_l model_entities)
     = set_len (position_set ground_truth_l ∩ position_set model_entities)
       - set_len (exact_match_positions ground_truth_l model_entities).
Proof.
  split; [apply exact_positions_subset|].
  unfold compare_annotations, set_len. cbn [ComparisonResult.partial_matches].
  pose proof exact_positions_subset as Hsub.
  rewrite (size_difference _ _ Hsub).
  apply subseteq_size in Hsub. lia.
Qed.

(** Exact matches are counted among both totals. *)
Lemma exact_matches_bounds :
  let r := compare_annotations ground_truth_l model_entities in
  0 <= ComparisonResult.exact_matches r <= ComparisonResult.total_model r
  /\ ComparisonResult.exact_matches r <= ComparisonResult.total_ground_truth r.
Proof.
  unfold compare_annotations, set_len. simpl.
  assert (H1 : span_set ground_truth_l ∩ span_set model_entities
               ⊆ span_set model_entities) by apply intersection_subseteq_r.
  assert (H2 : span_set ground_truth_l ∩ span_set model_entities
               ⊆ span_set ground_truth_l) by apply intersection_subseteq_l.
  apply subseteq_size in H1, H2. lia.
Qed.

End Compare.

(** ** Precision and recall of the aggregate *)

Lemma accumulate_bounded (total r : ComparisonResult.t) :
  counts_bounded total -> counts_bounded r -> counts_bounded (accumulate total r).
Proof. unfold counts_bounded, accumulate. simpl. lia. Qed.

Lemma accumulate_all_bounded (items : list Item) :
  forall totals : ComparisonResult.t * ComparisonResult.t,
  counts_bounded (fst totals) -> counts_bounded (snd totals) ->
  let totals' :=
    fold_left
      (fun totals item =>
         (accumulate (fst totals) (fst (item_comparisons item)),
          accumulate (snd totals) (snd (item_comparisons item))))
      items totals in
  counts_bounded (fst totals') /\ counts_bounded (snd totals').
Proof.
  induction items as [|item items IH]; intros totals H1 H2; [done|].
  cbn [fold_left]. apply IH; cbn [fst snd]; apply accumulate_bounded;
    try done; apply exact_matches_bounds.
Qed.

Lemma total_comparisons_bounded (items : list Item) :
  counts_bounded (fst (total_comparisons items))
  /\ counts_bounded (snd (total_comparisons items)).
Proof.
  apply accumulate_all_bounded; unfold counts_bounded; simpl; lia.
Qed.

Lemma guarded_quotient (num den : Z) :
  0 <= num <= den ->
  (inject_Z num / inject_Z (Z.max den 1) == ratio_or_zero num den
   /\ 0 <= inject_Z num / inject_Z (Z.max den 1) <= 1)%Q.
Proof.
  intros H. unfold ratio_or_zero.
  destruct (Z.eqb_spec den 0) as [->|Hne].
  - assert (num = 0) as -> by lia. split; [reflexivity|].
    split; [apply Qle_refl|discriminate].
  - replace (Z.max den 1) with den by lia. split; [reflexivity|].
    assert (Hpos : (0 < inject_Z den)%Q) by (unfold Qlt; simpl; lia).
    split.
    + apply Qle_shift_div_l; [exact Hpos|]. rewrite Qmult_0_l.
      unfold Qle. simpl. lia.
    + apply Qle_shift_div_r; [exact Hpos|]. rewrite Qmult_1_l.
      unfold Qle. simpl. lia.
Qed.

(** C6: for both aggregates of a report, the precision printed,
    [exact_matches / max(total_model, 1)], is [exact_matches / total_model]
    or [0] when nothing was predicted, the recall is the same with
    [total_ground_truth], and both lie between 0 and 1. *)
Theorem aggregate_precision_recall (items : list Item) :
  let totals := total_comparisons items in
  forall r : ComparisonResult.t,
    r = fst totals \/ r = snd totals ->
    (precision r
       == ratio_or_zero (ComparisonResult.exact_matches r)
            (ComparisonResult.total_model r)
     /\ recall r
        == ratio_or_zero (ComparisonResult.exact_matches r)
             (ComparisonResult.total_ground_truth r)
     /\ 0 <= precision r <= 1 /\ 0 <= recall r <= 1)%Q.
Proof.
  intros totals r Hr.
  assert (Hb : counts_bounded r).
  { destruct (total_comparisons_bounded items) as [H1 H2].
    destruct Hr as [->| ->]; assumption. }
  destruct Hb as [Hm Hg]. unfold precision, recall.
  destruct (guarded_quotient (ComparisonResult.exact_matches r)
              (ComparisonResult.total_model r)) as [? ?]; [lia|].
  destruct (guarded_quotient (ComparisonResult.exact_matches r)
              (ComparisonResult.total_ground_truth r)) as [? ?]; [lia|].
  auto.
Qed.

(** C8: when the ground truth of a record yields the span set
    [{(0, 5, ("A",))}] and a model yields [{(0, 5, ("A",)), (10, 15, ("B",))}],
    [compare_annotations] counts one exact match, one model-only span and
    no ground-truth-only span, and a report of that record shows a
    precision of one half (50%) and a recall of one (100%). *)
Theorem comparison_example (ground_truth_l model_entities : list EntitySpan.t) :
  span_set ground_truth_l = {[ (0, 5, ["A"]) ]} ->
  span_set model_entities = {[ (0, 5, ["A"]); (10, 15, ["B"]) ]} ->
  let r := compare_annotations ground_truth_l model_entities in
  ComparisonResult.exact_matches r = 1
  /\ ComparisonResult.model_only r = 1
  /\ ComparisonResult.ground_truth_only r = 0
  /\ (precision (accumulate ComparisonResult.init r) == 1 # 2)%Q
  /\ (recall (accumulate ComparisonResult.init r) == 1)%Q.
Proof.
  intros Hgt Hm r.
  assert (He : ComparisonResult.exact_matches r = 1).
  { subst r. unfold compare_annotations. cbn [ComparisonResult.exact_matches].
    rewrite Hgt, Hm. reflexivity. }
  assert (Hmo : ComparisonResult.model_only r = 1).
  { subst r. unfold compare_annotations. cbn [ComparisonResult.model_only].
    rewrite Hgt, Hm. reflexivity. }
  assert (Hgo : ComparisonResult.ground_truth_only r = 0).
  { subst r. unfold compare_annotations. cbn [ComparisonResult.ground_truth_only].
    rewrite Hgt, Hm. reflexivity. }
  assert (Htm : ComparisonResult.total_model r = 2).
  { subst r. unfold compare_annotations. cbn [ComparisonResult.total_model].
    rewrite Hm. reflexivity. }
  assert (Htg : ComparisonResult.total_ground_truth r = 1).
  { subst r. unfold compare_annotations. cbn [ComparisonResult.total_ground_truth].
    rewrite Hgt. reflexivity. }
  repeat split; try assumption.
  - unfold precision, accumulate.
    cbn [ComparisonResult.exact_matches ComparisonResult.total_model
         ComparisonResult.init].
    rewrite He, Htm. reflexivity.
  - unfold recall, accumulate.
    cbn [ComparisonResult.exact_matches ComparisonResult.total_ground_truth
         ComparisonResult.init].
    rewrite He, Htg. reflexivity.
Qed.

Lemma comparison_example_witness :
  let r := compare_annotations example_ground_truth example_model in
  ComparisonResult.exact_matches r = 1
  /\ ComparisonResult.model_only r = 1
  /\ ComparisonResult.ground_truth_only r = 0
  /\ (precision (accumulate ComparisonResult.init r) == 1 # 2)%Q
  /\ (recall (accumulate ComparisonResult.init r) == 1)%Q.
Proof.
  apply (comparison_example example_ground_truth example_model).
  - vm_compute. reflexivity.
  - vm_compute. reflexivity.
Defined.

Lemma aggregate_precision_recall_witness :
  let r := fst (total_comparisons [report_demo_item; report_demo_item]) in
  (precision r
     == ratio_or_zero (ComparisonResult.exact_matches r)
          (ComparisonResult.total_model r)
   /\ recall r
      == ratio_or_zero (ComparisonResult.exact_matches r)
           (ComparisonResult.total_ground_truth r)
   /\ 0 <= precision r <= 1 /\ 0 <= recall r <= 1)%Q.
Proof.
  intros r.
  apply (aggregate_precision_recall [report_demo_item; report_demo_item] r).
  left. reflexivity.
Defined.

(** ** Strings and joins *)

Lemma string_app_nil_l (a : string) : "" +:+ a = a.
Proof. reflexivity. Qed.

Lemma string_app_cons (x : ascii) (a b : string) :
  String x a +:+ b = String x (a +:+ b).
Proof. reflexivity. Qed.

Lemma string_app_assoc (a b c : string) : (a +:+ b) +:+ c = a +:+ b +:+ c.
Proof.
  induction a as [|x a IH]; [reflexivity|].
  by rewrite !string_app_cons, IH.
Qed.

Lemma string_app_nil_r (a : string) : a +:+ "" = a.
Proof.
  induction a as [|x a IH]; [reflexivity|]. by rewrite string_app_cons, IH.
Qed.

Lemma concat_app (l1 l2 : list string) :
  Py.concat (l1 ++ l2) = Py.concat l1 +:+ Py.concat l2.
Proof.
  unfold Py.concat. induction l1 as [|s l1 IH]; [reflexivity|].
  cbn [List.app fold_right]. by rewrite IH, string_app_assoc.
Qed.

Lemma concat_snoc (l : list string) (s : string) :
  Py.concat (l ++ [s]) = Py.concat l +:+ s.
Proof.
  rewrite concat_app. unfold Py.concat at 2. cbn [fold_right].
  by rewrite string_app_nil_r.
Qed.

Lemma substring_zero (s : string) (n : nat) : substring n 0 s = "".
Proof.
  revert n. induction s as [|c s IH]; intros [|n]; simpl; auto.
Qed.

Lemma substring_all (s : string) : substring 0 (String.length s) s = s.
Proof. induction s as [|c s IH]; simpl; [reflexivity|]. by rewrite IH. Qed.

Lemma slice_from_zero (s : string) : Py.slice_from s 0 = s.
Proof.
  unfold Py.slice_from, Py.slice, Py.clamp, Py.len. simpl.
  destruct (Z.ltb_spec (Z.of_nat (String.length s)) 0); [lia|].
  rewrite Z.min_id, Z.min_l by lia. rewrite Z.sub_0_r, Nat2Z.id.
  apply substring_all.
Qed.

Lemma len_zero (s : string) : Py.len s <= 0 -> s = "".
Proof. unfold Py.len. destruct s; [done|]. simpl. lia. Qed.

(** ** The stable sort *)

Section Sorted.

Context {A : Type} (le : A -> A -> bool).
Hypothesis le_total : forall x y, le x y = false -> le y x = true.
Hypothesis le_trans : forall x y z, le x y = true -> le y z = true -> le x z = true.

Lemma insert_sorted_sorted (x : A) (l : list A) :
  StronglySorted (holds le) l -> StronglySorted (holds le) (PyLib.insert_sorted le x l).
Proof.
  induction 1 as [|y l Hs IH Hy]; simpl.
  - repeat constructor.
  - destruct (le x y) eqn:Hxy.
    + constructor; [by constructor|]. constructor; [exact Hxy|].
      eapply List.Forall_impl; [|exact Hy]. intros z Hz. by eapply le_trans.
    + constructor; [exact IH|].
      rewrite List.Forall_forall in *. intros z Hz.
      apply (Permutation_in _ (insert_sorted_perm le x l)) in Hz.
      destruct Hz as [<-|Hz]; [by apply le_total|by apply Hy].
Qed.

Lemma sorted_sorted (l : list A) : StronglySorted (holds le) (PyLib.sorted le l).
Proof.
  induction l as [|x l IH]; simpl; [constructor|].
  by apply insert_sorted_sorted.
Qed.

(** Filtering commutes with inserting into a sorted list. *)
Lemma filter_insert_sorted (P : A -> bool) (x : A) (l : list A) :
  StronglySorted (holds le) l ->
  List.filter P (PyLib.insert_sorted le x l)
  = if P x then PyLib.insert_sorted le x (List.filter P l) else List.filter P l.
Proof.
  induction 1 as [|y l Hs IH Hy]; simpl.
  - by destruct (P x).
  - destruct (le x y) eqn:Hxy; simpl.
    + destruct (P x) eqn:Px; [|reflexivity].
      destruct (P y) eqn:Py; simpl; [by rewrite Hxy|].
      destruct (List.filter P l) as [|z l'] eqn:El; [reflexivity|]. simpl.
      assert (Hz : In z l).
      { assert (In z (List.filter P l)) by (rewrite El; by left).
        by apply filter_In in H as [? _]. }
      rewrite List.Forall_forall in Hy.
      by rewrite (le_trans x y z Hxy (Hy z Hz)).
    + rewrite IH. destruct (P y) eqn:Py; simpl.
      * destruct (P x); [by rewrite Hxy|reflexivity].
      * reflexivity.
Qed.

Lemma filter_sorted (P : A -> bool) (l : list A) :
  List.filter P (PyLib.sorted le l) = PyLib.sorted le (List.filter P l).
Proof.
  induction l as [|x l IH]; simpl; [reflexivity|].
  rewrite filter_insert_sorted by apply sorted_sorted.
  rewrite IH. by destruct (P x).
Qed.

(** A list already in order is left as it is. *)
Lemma sorted_id (l : list A) : StronglySorted (holds le) l -> PyLib.sorted le l = l.
Proof.
  induction 1 as [|x l Hs IH Hx]; simpl; [reflexivity|].
  rewrite IH. destruct l as [|y l]; [reflexivity|]. simpl.
  apply Forall_inv in Hx. unfold holds in Hx. by rewrite Hx.
Qed.

End Sorted.

Lemma key_le_total x y : key_le x y = false -> key_le y x = true.
Proof.
  unfold key_le, sort_key. simpl.
  rewrite orb_false_iff, andb_false_iff, orb_true_iff, andb_true_iff.
  rewrite !Z.ltb_lt, !Z.ltb_ge, !Z.eqb_eq, !Z.eqb_neq, !Z.leb_le, !Z.leb_gt.
  lia.
Qed.

Lemma key_le_trans x y z :
  key_le x y = true -> key_le y z = true -> key_le x z = true.
Proof.
  unfold key_le, sort_key. simpl.
  rewrite !orb_true_iff, !andb_true_iff, !Z.ltb_lt, !Z.eqb_eq, !Z.leb_le.
  lia.
Qed.

Lemma extract_entities_sorted (item : Item) :
  sorted_by_key (extract_entities item).
Proof.
  apply sorted_sorted; [apply key_le_total|apply key_le_trans].
Qed.

Lemma by_source_sorted (src : Source) (l : list EntitySpan.t) :
  by_source src (PyLib.sorted key_le l) = PyLib.sorted key_le (by_source src l).
Proof.
  apply filter_sorted; [apply key_le_total|apply key_le_trans].
Qed.

(** ** Occurrence counters *)

Lemma counter_get_insert (c : gmap string Z) (k : string) (v : Z) :
  counter_get (<[k := v]> c) k = v.
Proof. unfold counter_get. by rewrite lookup_insert_eq. Qed.

Lemma add_occurrences_numbered src span_text tys occs :
  forall (counters : gmap string Z) (entities : list EntitySpan.t),
  let st := fold_left (add_occurrence src span_text tys) occs (counters, entities) in
  snd st
  = entities ++ numbered_spans src span_text tys (counter_get counters span_text) occs
  /\ counter_get (fst st) span_text
     = counter_get counters span_text + Z.of_nat (length occs).
Proof.
  induction occs as [|occ occs IH]; intros counters entities; cbv zeta;
    cbn [fold_left].
  - simpl. rewrite app_nil_r. split; [reflexivity|lia].
  - replace (add_occurrence src span_text tys (counters, entities) occ)
      with (<[span_text := counter_get counters span_text + 1]> counters,
            entities ++ [EntitySpan.mk (fst occ) (snd occ) span_text tys src
                           (counter_get counters span_text + 1)])
      by (unfold add_occurrence; by rewrite counter_get_insert).
    destruct (IH (<[span_text := counter_get counters span_text + 1]> counters)
                (entities ++ [EntitySpan.mk (fst occ) (snd occ) span_text tys src
                                (counter_get counters span_text + 1)]))
      as [Hs Hc].
    cbv zeta in Hs, Hc. rewrite Hs, Hc, counter_get_insert. split.
    + unfold numbered_spans. rewrite imap_cons, <- app_assoc. cbn [List.app].
      f_equal. f_equal; [f_equal; lia|].
      apply imap_ext. intros i x _. simpl. f_equal. lia.
    + cbn [length]. lia.
Qed.

(** Spans of one source are left alone by the rounds of another. *)
Lemma add_annotations_other_source passage src src' anns (st : ExtractState) :
  src <> src' ->
  by_source src' (snd (add_annotations passage src anns st))
  = by_source src' (snd st).
Proof.
  intros Hne. unfold add_annotations. revert st.
  induction (default [] anns) as [|a l IH]; intros st; [reflexivity|].
  cbn [fold_left]. rewrite IH. unfold add_annotation.
  generalize (find_all_occurrences passage (span a)). intros occs. revert st.
  induction occs as [|occ occs IHo]; intros st; [reflexivity|].
  cbn [fold_left]. rewrite IHo. destruct st as [c es]. unfold add_occurrence.
  cbn [snd]. unfold by_source. rewrite List.filter_app. simpl.
  rewrite bool_decide_eq_false_2 by done. by rewrite app_nil_r.
Qed.

(** ** The layout of [markup_text] *)

Lemma markup_loop_layout passage groups : forall (result : list string) last_pos,
  let '(result', last_pos') :=
    fold_left (markup_step passage) groups (result, last_pos) in
  Py.concat
    (if last_pos' <? Py.len passage
     then result' ++ [PyLib.html_escape (Py.slice_from passage last_pos')]
     else result')
  = Py.concat result
    +:+ layout PyLib.html_escape render_group passage groups last_pos.
Proof.
  induction groups as [|g gs IH]; intros result last_pos; cbn [fold_left layout].
  - unfold tail_text. destruct (last_pos <? Py.len passage).
    + apply concat_snoc.
    + simpl. by rewrite string_app_nil_r.
  - unfold markup_step at 2. specialize (IH
      ((if group_start g >? last_pos
        then result ++ [PyLib.html_escape (Py.slice passage last_pos (group_start g))]
        else result) ++ [render_group g]) (group_end g)).
    destruct (fold_left _ _ _) as [result' last_pos']. rewrite IH.
    rewrite concat_snoc. unfold gap_text.
    destruct (group_start g >? last_pos).
    + by rewrite concat_snoc, !string_app_assoc.
    + simpl. by rewrite !string_app_assoc.
Qed.

Lemma markup_text_layout (passage : string) (entities : list EntitySpan.t) :
  markup_text passage entities
  = layout PyLib.html_escape render_group passage (resolve_overlaps entities) 0.
Proof.
  destruct entities as [|e entities].
  - simpl. unfold tail_text. destruct (Z.ltb_spec 0 (Py.len passage)).
    + by rewrite slice_from_zero.
    + by rewrite (len_zero passage).
  - unfold markup_text.
    pose proof (markup_loop_layout passage (resolve_overlaps (e :: entities)) [] 0)
      as H.
    destruct (fold_left _ _ _) as [result last_pos]. exact H.
Qed.

Lemma slice_empty (s : string) (lo hi : Z) :
  0 <= hi <= lo -> Py.slice s lo hi = "".
Proof.
  intros H. unfold Py.slice, Py.clamp.
  destruct (Z.ltb_spec lo 0); [lia|]. destruct (Z.ltb_spec hi 0); [lia|].
  replace (Z.to_nat (Z.min hi (Py.len s) - Z.min lo (Py.len s))) with 0%nat
    by lia.
  apply substring_zero.
Qed.

Lemma gap_text_slice (passage : string) (last_pos start : Z) :
  0 <= start -> gap_text passage last_pos start = Py.slice passage last_pos start.
Proof.
  intros H. unfold gap_text. destruct (Z.gtb_spec start last_pos); [reflexivity|].
  by rewrite slice_empty.
Qed.

Lemma tail_text_slice (passage : string) (last_pos : Z) :
  0 <= last_pos -> tail_text passage last_pos = Py.slice_from passage last_pos.
Proof.
  intros H. unfold tail_text.
  destruct (Z.ltb_spec last_pos (Py.len passage)); [reflexivity|].
  unfold Py.slice_from, Py.slice, Py.clamp.
  destruct (Z.ltb_spec last_pos 0); [lia|].
  destruct (Z.ltb_spec (Py.len passage) 0); [unfold Py.len in *; lia|].
  replace (Z.to_nat (Z.min (Py.len passage) (Py.len passage)
                     - Z.min last_pos (Py.len passage))) with 0%nat by lia.
  by rewrite substring_zero.
Qed.

(** ** What a group is rendered as *)



(** Replacing a string that does not occur changes nothing. *)
Lemma index_none_prefix (old : string) (c : ascii) (s : string) :
  String.index 0 old (String c s) = None ->
  String.prefix old (String c s) = false /\ String.index 0 old s = None.
Proof.
  cbn [String.index]. destruct (String.prefix old (String c s)); [done|].
  destruct (String.index 0 old s); [done|]. done.
Qed.

Lemma replace_absent (s old new : string) :
  old <> "" -> Py.contains old s = false -> PyLib.replace s old new = s.
Proof.
  intros Hne. unfold Py.contains, PyLib.replace.
  destruct old as [|o old]; [done|]. clear Hne.
  destruct (String.index 0 (String o old) s) eqn:E; [done|]. intros _.
  induction s as [|c s IH]; [reflexivity|].
  apply index_none_prefix in E as [Hp Hi].
  cbn [PyLib.replace_from]. rewrite Hp. f_equal. by apply IH.
Qed.

(** So a group is rendered as the bare HTML of its longest member
    whenever that HTML has no [title=] attribute in it. *)
Lemma render_group_without_title (g : list EntitySpan.t)
    (primary : EntitySpan.t) :
  PyLib.max_by span_length g = Some primary ->
  Py.contains ("title=" +:+ PyLib.dq) (create_entity_html primary true) = false ->
  render_group g = create_entity_html primary true.
Proof.
  intros Hmax Hno. destruct g as [|e [|e' g]]; [done| |].
  - simpl in Hmax. by injection Hmax as <-.
  - change (render_group (e :: e' :: g)) with (render_overlap_group (e :: e' :: g)).
    unfold render_overlap_group. rewrite Hmax.
    destruct (map secondary_summary (secondaries_of primary (e :: e' :: g)));
      [reflexivity|].
    apply replace_absent; [|exact Hno].
    intros H. vm_compute in H. discriminate H.
Qed.

(** ** Escaping *)

Lemma string_forallb_app (f : ascii -> bool) (a b : string) :
  string_forallb f (a +:+ b) = string_forallb f a && string_forallb f b.
Proof.
  induction a as [|c a IH]; [reflexivity|].
  rewrite string_app_cons. simpl. by rewrite IH, andb_assoc.
Qed.

Lemma escape_char_clean (c : ascii) :
  string_forallb (fun x => negb (markup_char x)) (PyLib.escape_char c) = true.
Proof.
  unfold PyLib.escape_char.
  destruct (Ascii.eqb c "&") eqn:E1; [reflexivity|].
  destruct (Ascii.eqb c "<") eqn:E2; [reflexivity|].
  destruct (Ascii.eqb c ">") eqn:E3; [reflexivity|].
  destruct (Ascii.eqb c "034") eqn:E4; [reflexivity|].
  destruct (Ascii.eqb c "'") eqn:E5; [reflexivity|].
  simpl. unfold markup_char. by rewrite E2, E3, E4, E5.
Qed.

(** Escaped text holds no angle bracket and no quote: what goes through
    [html.escape] (the passage between groups and the span text) cannot
    open or close a tag or an attribute. *)
Lemma html_escape_clean (s : string) :
  string_forallb (fun x => negb (markup_char x)) (PyLib.html_escape s) = true.
Proof.
  induction s as [|c s IH]; [reflexivity|].
  cbn [PyLib.html_escape]. by rewrite string_forallb_app, escape_char_clean, IH.
Qed.

(** C2 at the failing input: the passage text is escaped, the type
    strings are written as they are, in the [data-types] attribute and in
    the type list, so a tag and a quote from a type string reach the
    output. *)
Theorem type_strings_not_escaped :
  Py.contains "&lt;3" markup_in_types_output = true
  /\ Py.contains "<3" markup_in_types_output = false
  /\ Py.contains "<b></li>" markup_in_types_output = true
  /\ Py.contains "&lt;b&gt;" markup_in_types_output = false
  /\ Py.contains
       ("data-types=" +:+ PyLib.dq +:+ "<b>|x" +:+ PyLib.dq +:+ " y="
        +:+ PyLib.dq +:+ "z" +:+ PyLib.dq)
       markup_in_types_output = true.
Proof. repeat split; vm_compute; reflexivity. Qed.

(** C1 at the failing input: the group of the two overlapping spans is
    rendered as the HTML of the longer one, unchanged; that HTML has no
    [title=] attribute for the replacement to extend, and the summary of
    the shorter span, its type list included, is nowhere in the output. *)
Theorem secondary_summary_not_rendered :
  let group := [overhang_primary; overhang_secondary] in
  let out := markup_text (item_text overhang_item) overhang_spans in
  resolve_overlaps overhang_spans = [group]
  /\ PyLib.max_by span_length group = Some overhang_primary
  /\ secondaries_of overhang_primary group = [overhang_secondary]
  /\ secondary_summary overhang_secondary = "Ground Truth: E53 Place"
  /\ Py.contains ("title=" +:+ PyLib.dq)
       (create_entity_html overhang_primary true) = false
  /\ render_group group = create_entity_html overhang_primary true
  /\ Py.contains (secondary_summary overhang_secondary) out = false
  /\ Py.contains (format_types (EntitySpan.types overhang_secondary)) out
     = false
  /\ Py.contains "Also annotated as" out = false.
Proof. repeat split; vm_compute; reflexivity. Qed.

(** * Further properties of the code *)

(** ** [find_all_occurrences]: the empty span and the number of hits *)

(** X1: the empty span string is found at every offset of the text, the
    end included: [find_all_occurrences(T, "")] is [(0,0), ..., (n,n)] for
    [n = len(T)]. *)
Theorem find_all_occurrences_empty_span (text : string) :
  find_all_occurrences text ""
  = map (fun i : nat => (Z.of_nat i, Z.of_nat i))
      (List.seq 0 (S (String.length text))).
Proof.
  rewrite find_all_occurrences_eq. unfold occurrence_offsets.
  cbn [Nat.sub].
  replace (List.filter (occurs_at text "") (List.seq 0 (S (String.length text))))
    with (List.seq 0 (S (String.length text))).
  - apply map_ext. intros i. unfold occurrence_pair, Py.len. simpl.
    f_equal. lia.
  - symmetry. apply forallb_filter_id. apply forallb_forall. intros i _.
    unfold occurs_at. simpl. rewrite substring_zero. reflexivity.
Qed.

Lemma occurs_at_fits (text span_text : string) (i : nat) :
  occurs_at text span_text i = true ->
  (i + String.length span_text <= String.length text \/ span_text = "")%nat.
Proof. intros H. apply occurs_at_iff in H. by apply substring_fits. Qed.

(** X2: a span string of length [m] has at most [len(T) + 1 - m] hits in
    [T]; in particular none when it is longer than [T]. *)
Theorem find_all_occurrences_count (text span_text : string) :
  (length (find_all_occurrences text span_text)
   <= S (String.length text) - String.length span_text)%nat.
Proof.
  rewrite find_all_occurrences_eq, length_map. unfold occurrence_offsets.
  cbn [Nat.sub].
  set (m := String.length span_text). set (n := String.length text).
  destruct (Nat.eq_dec m 0%nat) as [Hm|Hm].
  - etransitivity; [apply List.filter_length_le|]. rewrite length_seq. lia.
  - replace (S n) with ((S n - m) + (S n - (S n - m)))%nat at 1 by lia.
    rewrite seq_app, List.filter_app, length_app.
    rewrite (filter_none _ (List.seq (0 + (S n - m)) _)).
    + cbn [length]. pose proof (List.filter_length_le (occurs_at text span_text)
                                  (List.seq 0 (S n - m))) as Hle.
      rewrite length_seq in Hle. lia.
    + intros i Hi. apply in_seq in Hi. apply not_true_iff_false. intros Hocc.
      apply occurs_at_fits in Hocc as [Hocc|Hocc].
      * fold m n in Hocc. lia.
      * subst m. rewrite Hocc in Hm. simpl in Hm. lia.
Qed.

(** ** [extract_entities]: where the spans come from *)

Section Provenance.

Variable item : Item.

Lemma counter_get_insert_ne (c : gmap string Z) (k k' : string) (v : Z) :
  k <> k' -> counter_get (<[k := v]> c) k' = counter_get c k'.
Proof. intros H. unfold counter_get. by rewrite lookup_insert_ne. Qed.

Lemma add_occurrence_from_item src (a : Annotation) (st : ExtractState) occ :
  In a (annotations_of src item) ->
  In occ (find_all_occurrences (item_text item) (span a)) ->
  counters_ok st -> Forall (from_item item) (snd st) ->
  counters_ok (add_occurrence src (span a) (ann_types a) st occ)
  /\ Forall (from_item item) (snd (add_occurrence src (span a) (ann_types a) st occ)).
Proof.
  destruct st as [c es], occ as [i j]. intros Ha Hocc Hc Hes.
  unfold add_occurrence. rewrite counter_get_insert. split.
  - intros s. cbn [fst]. destruct (decide (span a = s)) as [<-|Hne].
    + rewrite counter_get_insert. specialize (Hc (span a)). simpl in Hc. lia.
    + rewrite counter_get_insert_ne by done. apply Hc.
  - cbn [snd]. apply Forall_app. split; [exact Hes|].
    constructor; [|constructor].
    exists a. cbn. repeat split; try done.
    specialize (Hc (span a)). simpl in Hc. lia.
Qed.

Lemma add_annotations_from_item src (l : list Annotation) :
  forall st : ExtractState,
  (forall a, In a l -> In a (annotations_of src item)) ->
  counters_ok st -> Forall (from_item item) (snd st) ->
  Forall (from_item item) (snd (fold_left (add_annotation (item_text item) src) l st)).
Proof.
  induction l as [|a l IH]; intros st Hl Hc Hes; [exact Hes|].
  cbn [fold_left].
  assert (Hstep : counters_ok (add_annotation (item_text item) src st a)
                  /\ Forall (from_item item) (snd (add_annotation (item_text item) src st a))).
  { unfold add_annotation.
    assert (Ha : In a (annotations_of src item)) by (apply Hl; by left).
    assert (Hsub : forall occ, In occ (find_all_occurrences (item_text item) (span a)) ->
                     In occ (find_all_occurrences (item_text item) (span a))) by auto.
    revert Hsub Hc Hes. generalize st.
    generalize (find_all_occurrences (item_text item) (span a)) at 1 3 4.
    intros occs. induction occs as [|occ occs IHo]; intros st' Hsub Hc Hes.
    - by split.
    - cbn [fold_left].
      destruct (add_occurrence_from_item src a st' occ Ha) as [Hc' Hes'];
        [apply Hsub; by left|done|done|].
      apply IHo; [|done|done]. intros o Ho. apply Hsub. by right. }
  destruct Hstep as [Hc' Hes'].
  apply IH; [|done|done]. intros b Hb. apply Hl. by right.
Qed.

Lemma collect_entities_from_item : Forall (from_item item) (collect_entities item).
Proof.
  unfold collect_entities, add_annotations.
  apply (add_annotations_from_item gpt4); [auto|by intros s|].
  apply (add_annotations_from_item mistral); [auto|by intros s|].
  apply (add_annotations_from_item ground_truth); [auto|by intros s|].
  constructor.
Qed.

End Provenance.

(** X3: every span of [extract_entities] stems from an entry of the
    annotation array of its own source: it carries that entry's span
    string and type list, its offsets are one of the occurrences of the
    span string in the passage, and its occurrence index is at least 1. *)
Theorem extract_entities_provenance (item : Item) (e : EntitySpan.t) :
  In e (extract_entities item) ->
  stems_from (item_text item) (annotations_of (EntitySpan.source e) item) e.
Proof.
  intros H. apply sorted_In in H.
  pose proof (collect_entities_from_item item) as Hall.
  rewrite List.Forall_forall in Hall. by apply Hall.
Qed.

Lemma extract_entities_provenance_witness :
  stems_from (item_text three_occurrences_item)
    (annotations_of ground_truth three_occurrences_item)
    (EntitySpan.mk 12 15 "the" ["E21 Person"] ground_truth 2).
Proof.
  apply (extract_entities_provenance three_occurrences_item
           (EntitySpan.mk 12 15 "the" ["E21 Person"] ground_truth 2)).
  vm_compute. right. right. left. reflexivity.
Defined.

(** ** [extract_entities]: nothing is left out *)

Lemma numbered_spans_In src span_text tys base occs (occ : Z * Z) :
  In occ occs ->
  exists id, In (EntitySpan.mk (fst occ) (snd occ) span_text tys src id)
               (numbered_spans src span_text tys base occs).
Proof.
  intros H. apply list_elem_of_In, list_elem_of_lookup in H as [k Hk].
  exists (base + Z.of_nat k + 1). apply list_elem_of_In.
  unfold numbered_spans. apply list_elem_of_lookup. exists k.
  by rewrite list_lookup_imap, Hk.
Qed.

Lemma add_annotation_snd passage src (st : ExtractState) (a : Annotation) :
  snd (add_annotation passage src st a)
  = snd st
    ++ numbered_spans src (span a) (ann_types a)
         (counter_get (fst st) (span a))
         (find_all_occurrences passage (span a)).
Proof.
  destruct st as [c es]. unfold add_annotation.
  destruct (add_occurrences_numbered src (span a) (ann_types a)
              (find_all_occurrences passage (span a)) c es) as [H _].
  exact H.
Qed.

(** Spans are only ever appended. *)
Lemma add_annotations_keeps passage src anns (st : ExtractState) e :
  In e (snd st) -> In e (snd (add_annotations passage src anns st)).
Proof.
  unfold add_annotations. revert st.
  induction (default [] anns) as [|a l IH]; intros st H; [exact H|].
  cbn [fold_left]. apply IH. rewrite add_annotation_snd.
  apply in_or_app. by left.
Qed.

Lemma add_annotations_adds passage src anns (a : Annotation) (occ : Z * Z) :
  forall st : ExtractState,
  In a (default [] anns) ->
  In occ (find_all_occurrences passage (span a)) ->
  exists id,
    In (EntitySpan.mk (fst occ) (snd occ) (span a) (ann_types a) src id)
      (snd (add_annotations passage src anns st)).
Proof.
  unfold add_annotations.
  induction (default [] anns) as [|b l IH]; intros st Ha Hocc; [done|].
  cbn [fold_left]. destruct Ha as [->|Ha]; [|by apply IH].
  destruct (numbered_spans_In src (span a) (ann_types a)
              (counter_get (fst st) (span a)) _ occ Hocc) as [id Hid].
  exists id.
  assert (Hin : In (EntitySpan.mk (fst occ) (snd occ) (span a) (ann_types a) src id)
                  (snd (add_annotation passage src st a))).
  { rewrite add_annotation_snd. apply in_or_app. by right. }
  clear -Hin. revert Hin. generalize (add_annotation passage src st a).
  induction l as [|c l IH]; intros st' H; [exact H|].
  cbn [fold_left]. apply IH. rewrite add_annotation_snd.
  apply in_or_app. by left.
Qed.

(** X4: every occurrence of the span string of every annotation entry
    becomes a span: for an entry [a] of the array of source [src] and an
    occurrence [(i, j)] of its span string in the passage,
    [extract_entities] returns a span [(i, j)] of that source with the
    entry's span string and types. *)
Theorem extract_entities_complete (item : Item) (src : Source)
    (a : Annotation) (i j : Z) :
  In a (annotations_of src item) ->
  In (i, j) (find_all_occurrences (item_text item) (span a)) ->
  exists id,
    In (EntitySpan.mk i j (span a) (ann_types a) src id)
      (extract_entities item).
Proof.
  intros Ha Hocc. unfold extract_entities.
  assert (H : exists id,
             In (EntitySpan.mk i j (span a) (ann_types a) src id)
               (collect_entities item)).
  { unfold collect_entities. destruct src; unfold annotations_of in Ha.
    - destruct (add_annotations_adds (item_text item) ground_truth (labels item)
                  a (i, j) (∅, []) Ha Hocc) as [id Hid].
      exists id. by do 2 apply add_annotations_keeps.
    - eapply add_annotations_adds in Hocc as [id Hid]; [|exact Ha].
      exists id. apply add_annotations_keeps. exact Hid.
    - eapply add_annotations_adds in Hocc as [id Hid]; [|exact Ha].
      exists id. exact Hid. }
  destruct H as [id Hid]. exists id. by apply sorted_In.
Qed.

Lemma extract_entities_complete_witness :
  exists id,
    In (EntitySpan.mk 24 27 "the" ["E21 Person"] ground_truth id)
      (extract_entities three_occurrences_item).
Proof.
  apply (extract_entities_complete three_occurrences_item ground_truth
           {| span := "the"; ann_types := ["E21 Person"] |} 24 27).
  - left. reflexivity.
  - vm_compute. right. right. left. reflexivity.
Defined.

(** ** [extract_entities]: order and split by source *)

Lemma filter_strongly_sorted {A} (R : relation A) (f : A -> bool) (l : list A) :
  StronglySorted R l -> StronglySorted R (List.filter f l).
Proof.
  induction 1 as [|a l Hs IH Ha]; simpl; [constructor|].
  destruct (f a); [|exact IH]. constructor; [exact IH|].
  rewrite List.Forall_forall in *. intros x Hx.
  apply filter_In in Hx as [Hx _]. auto.
Qed.

Lemma by_source_split (l : list EntitySpan.t) :
  Permutation l
    (by_source ground_truth l ++ by_source mistral l ++ by_source gpt4 l).
Proof.
  induction l as [|e l IH]; [reflexivity|].
  unfold by_source in *. cbn [List.filter].
  destruct (EntitySpan.source e) eqn:Es; simpl.
  - by constructor.
  - rewrite <- Permutation_middle. by constructor.
  - rewrite app_assoc, <- Permutation_middle, <- app_assoc. by constructor.
Qed.

(** X5: the list [extract_entities] returns is in the order of its sort
    key (start ascending, then end descending), so is the sublist of each
    source that the report loop hands to [markup_text], and the three
    sublists together hold every span exactly once. *)
Theorem extract_entities_ordered (item : Item) (src : Source) :
  sorted_by_key (extract_entities item)
  /\ sorted_by_key (by_source src (extract_entities item))
  /\ Permutation (extract_entities item)
       (by_source ground_truth (extract_entities item)
        ++ by_source mistral (extract_entities item)
        ++ by_source gpt4 (extract_entities item)).
Proof.
  split; [apply extract_entities_sorted|]. split.
  - apply filter_strongly_sorted, extract_entities_sorted.
  - apply by_source_split.
Qed.

(** ** Occurrence indices *)

Lemma filter_permutation {A} (f : A -> bool) (l l' : list A) :
  Permutation l l' -> Permutation (List.filter f l) (List.filter f l').
Proof.
  induction 1 as [|x l l' _ IH|x y l|l l' l'' _ IH1 _ IH2]; simpl.
  - reflexivity.
  - destruct (f x); [by constructor|exact IH].
  - destruct (f x), (f y); try reflexivity. apply perm_swap.
  - by etransitivity.
Qed.

Lemma spans_with_snoc src s (es : list EntitySpan.t) (e : EntitySpan.t) :
  EntitySpan.source e = src ->
  spans_with src s (es ++ [e])
  = spans_with src s es
    ++ (if bool_decide (EntitySpan.text e = s) then [e] else []).
Proof.
  intros Hs. unfold spans_with, by_source. rewrite List.filter_app.
  cbn [List.filter]. rewrite bool_decide_eq_true_2 by exact Hs.
  rewrite List.filter_app. cbn [List.filter].
  by destruct (bool_decide (EntitySpan.text e = s)).
Qed.

Lemma add_occurrence_counted src span_text tys (st : ExtractState) occ :
  ids_counted src st ->
  ids_counted src (add_occurrence src span_text tys st occ).
Proof.
  destruct st as [c es]. intros Hinv s. destruct (Hinv s) as [Hc Hids].
  cbn [fst snd] in Hc, Hids.
  unfold add_occurrence. rewrite counter_get_insert. cbn [fst snd].
  rewrite spans_with_snoc by reflexivity. cbn [EntitySpan.text].
  destruct (decide (span_text = s)) as [->|Hne].
  - rewrite counter_get_insert, bool_decide_eq_true_2 by reflexivity.
    split; [lia|]. rewrite map_app, Hids. cbn [map EntitySpan.occurrence_id].
    replace (Z.to_nat (counter_get c s + 1))
      with (S (Z.to_nat (counter_get c s))) by lia.
    rewrite seq_S, map_app. cbn [map]. f_equal. f_equal. lia.
  - rewrite counter_get_insert_ne, bool_decide_eq_false_2 by done.
    split; [exact Hc|]. by rewrite app_nil_r.
Qed.

Lemma add_annotations_counted passage src anns (st : ExtractState) :
  ids_counted src st -> ids_counted src (add_annotations passage src anns st).
Proof.
  unfold add_annotations. revert st.
  induction (default [] anns) as [|a l IH]; intros st H; [exact H|].
  cbn [fold_left]. apply IH. unfold add_annotation.
  generalize (find_all_occurrences passage (span a)). intros occs.
  revert st H. induction occs as [|occ occs IHo]; intros st H; [exact H|].
  cbn [fold_left]. apply IHo. by apply add_occurrence_counted.
Qed.

(** A round starts counted when no span of its source is there yet. *)
Lemma ids_counted_fresh src (es : list EntitySpan.t) :
  by_source src es = [] -> ids_counted src (∅, es).
Proof.
  intros H s. cbn [fst snd]. unfold counter_get, spans_with.
  rewrite lookup_empty, H. simpl. split; [lia|reflexivity].
Qed.

Lemma collect_entities_counted (item : Item) (src : Source) (s : string) :
  exists n : nat,
    map EntitySpan.occurrence_id (spans_with src s (collect_entities item))
    = map Z.of_nat (List.seq 1 n).
Proof.
  unfold collect_entities, spans_with.
  set (st1 := add_annotations (item_text item) ground_truth (labels item) (∅, [])).
  set (st2 := add_annotations (item_text item) mistral
                (mistral_small_3_2_output item) (∅, snd st1)).
  set (st3 := add_annotations (item_text item) gpt4
                (gpt_4o_mini_output item) (∅, snd st2)).
  destruct src.
  - assert (H1 : ids_counted ground_truth st1)
      by (apply add_annotations_counted, ids_counted_fresh; reflexivity).
    destruct (H1 s) as [_ Hids]. eexists.
    subst st3. rewrite (add_annotations_other_source _ gpt4 ground_truth) by done.
    cbn [snd]. subst st2.
    rewrite (add_annotations_other_source _ mistral ground_truth) by done.
    exact Hids.
  - assert (H2 : ids_counted mistral st2).
    { apply add_annotations_counted, ids_counted_fresh. subst st1.
      by rewrite (add_annotations_other_source _ ground_truth mistral). }
    destruct (H2 s) as [_ Hids]. eexists.
    subst st3. rewrite (add_annotations_other_source _ gpt4 mistral) by done.
    exact Hids.
  - assert (H3 : ids_counted gpt4 st3).
    { apply add_annotations_counted, ids_counted_fresh. subst st2.
      rewrite (add_annotations_other_source _ mistral gpt4) by done.
      cbn [snd]. subst st1.
      by rewrite (add_annotations_other_source _ ground_truth gpt4). }
    destruct (H3 s) as [_ Hids]. eexists. exact Hids.
Qed.

(** X6: within one source, the spans with the same text are numbered
    1, 2, ..., k, each index once: the occurrence indices of the spans of
    source [src] and text [s] that [extract_entities] returns are a
    rearrangement of [1 .. k], [k] being their number. *)
Theorem occurrence_ids_consecutive (item : Item) (src : Source) (s : string) :
  let ids :=
    map EntitySpan.occurrence_id (spans_with src s (extract_entities item)) in
  Permutation ids (map Z.of_nat (List.seq 1 (length ids))).
Proof.
  intros ids.
  assert (Hperm : Permutation ids
            (map EntitySpan.occurrence_id
               (spans_with src s (collect_entities item)))).
  { subst ids. apply Permutation_map. unfold spans_with, by_source.
    do 2 apply filter_permutation. apply sorted_perm. }
  destruct (collect_entities_counted item src s) as [n Hn].
  rewrite Hn in Hperm.
  assert (Hlen : length ids = n).
  { rewrite (Permutation_length Hperm). by rewrite length_map, length_seq. }
  by rewrite Hlen.
Qed.

(** ** [resolve_overlaps] on any list, and on spans that do not touch *)

Lemma concat_length_groups {A} (L : list (list A)) :
  Forall (fun g => g <> []) L -> (length L <= length (List.concat L))%nat.
Proof.
  induction 1 as [|g L Hg _ IH]; simpl; [lia|].
  rewrite length_app. destruct g; [done|]. simpl. lia.
Qed.

(** X7: whatever the input list (sorted or not), [resolve_overlaps] cuts it
    into consecutive non-empty groups: concatenating the groups gives the
    list back, so there are at most as many groups as spans, and any two
    members of a group are joined by a chain of overlapping members. *)
Theorem resolve_overlaps_partition (l : list EntitySpan.t) :
  List.concat (resolve_overlaps l) = l
  /\ Forall (fun g => g <> []) (resolve_overlaps l)
  /\ (length (resolve_overlaps l) <= length l)%nat
  /\ Forall well_chained (resolve_overlaps l).
Proof.
  split; [apply resolve_overlaps_concat|].
  split; [apply resolve_overlaps_nonempty|].
  split; [|apply resolve_overlaps_chained].
  rewrite <- (resolve_overlaps_concat l) at 2.
  apply concat_length_groups, resolve_overlaps_nonempty.
Qed.

Lemma resolve_loop_singletons (rest : list EntitySpan.t) :
  forall (groups : list (list EntitySpan.t)) (e0 : EntitySpan.t),
  separated (e0 :: rest) ->
  let '(groups', cur') := fold_left resolve_step rest (groups, [e0]) in
  groups' ++ [cur'] = groups ++ map (fun e => [e]) (e0 :: rest).
Proof.
  induction rest as [|e rest IH]; intros groups e0 Hsep; [reflexivity|].
  cbn [fold_left]. apply StronglySorted_inv in Hsep as [Hrest He0].
  assert (Hno : existsb (overlaps e) [e0] = false).
  { cbn [existsb]. rewrite orb_false_r. apply not_true_iff_false.
    rewrite overlaps_iff. apply Forall_inv in He0. lia. }
  unfold resolve_step at 2. rewrite Hno.
  specialize (IH (groups ++ [[e0]]) e Hrest).
  destruct (fold_left resolve_step rest (groups ++ [[e0]], [e])) as [g' c'].
  rewrite IH, <- app_assoc. reflexivity.
Qed.

Lemma layout_singletons (passage : string) (l : list EntitySpan.t) :
  forall last_pos,
  layout PyLib.html_escape render_group passage (map (fun e => [e]) l) last_pos
  = render_spans passage l last_pos.
Proof.
  induction l as [|e l IH]; intros last_pos; [reflexivity|].
  cbn [map layout render_spans render_group]. by rewrite IH.
Qed.

(** X8: spans that do not touch are never merged and never dropped: when
    every span of the list ends before the later ones start,
    [resolve_overlaps] puts each span in a group of its own, and
    [markup_text] is the passage with each span, in order, replaced by
    its own HTML. *)
Theorem separated_spans_rendered (passage : string) (l : list EntitySpan.t) :
  separated l ->
  resolve_overlaps l = map (fun e => [e]) l
  /\ markup_text passage l = render_spans passage l 0.
Proof.
  intros Hsep.
  assert (Hg : resolve_overlaps l = map (fun e => [e]) l).
  { destruct l as [|e0 rest]; [reflexivity|]. unfold resolve_overlaps.
    pose proof (resolve_loop_singletons rest [] e0 Hsep) as H.
    destruct (fold_left resolve_step rest ([], [e0])) as [g' c']. exact H. }
  split; [exact Hg|].
  by rewrite markup_text_layout, Hg, layout_singletons.
Qed.

Lemma separated_spans_rendered_witness :
  resolve_overlaps separated_demo = map (fun e => [e]) separated_demo
  /\ markup_text "the cat and the dog" separated_demo
     = render_spans "the cat and the dog" separated_demo 0.
Proof.
  apply (separated_spans_rendered "the cat and the dog" separated_demo).
  repeat constructor; simpl; lia.
Defined.

(** ** [markup_text]: the gaps and the group intervals tile the passage *)

Lemma substring_split (s : string) : forall n k m : nat,
  substring n k s +:+ substring (n + k) m s = substring n (k + m) s.
Proof.
  induction s as [|c s IH]; intros n k m.
  - destruct n, k, m; reflexivity.
  - destruct n as [|n].
    + destruct k as [|k]; [reflexivity|].
      cbn [Nat.add substring]. rewrite string_app_cons. f_equal.
      apply (IH 0%nat k m).
    + cbn [Nat.add substring]. apply IH.
Qed.

Lemma slice_split (s : string) (a b : Z) :
  0 <= a <= b ->
  Py.slice s a b +:+ Py.slice_from s b = Py.slice_from s a.
Proof.
  intros H. unfold Py.slice_from, Py.slice, Py.clamp.
  assert (0 <= Py.len s) by (unfold Py.len; lia).
  destruct (Z.ltb_spec a 0); [lia|]. destruct (Z.ltb_spec b 0); [lia|].
  destruct (Z.ltb_spec (Py.len s) 0); [lia|].
  rewrite Z.min_id.
  set (a' := Z.min a (Py.len s)). set (b' := Z.min b (Py.len s)).
  replace (Z.to_nat b') with (Z.to_nat a' + Z.to_nat (b' - a'))%nat by lia.
  rewrite substring_split. f_equal. lia.
Qed.

Lemma fold_min_spec (l : list Z) : forall a,
  fold_left Z.min l a <= a
  /\ (forall x, In x l -> fold_left Z.min l a <= x)
  /\ In (fold_left Z.min l a) (a :: l).
Proof.
  induction l as [|y l IH]; intros a; simpl.
  - split; [lia|]. split; [by intros x []|by left].
  - destruct (IH (Z.min a y)) as (H1 & H2 & H3). split; [lia|]. split.
    + intros x [<-|Hx]; [lia|auto].
    + destruct H3 as [H3|H3]; [|by right; right].
      destruct (Z.min_spec a y) as [[_ Hm]|[_ Hm]]; [left|right; left]; lia.
Qed.

Lemma fold_max_spec (l : list Z) : forall a,
  a <= fold_left Z.max l a
  /\ (forall x, In x l -> x <= fold_left Z.max l a)
  /\ In (fold_left Z.max l a) (a :: l).
Proof.
  induction l as [|y l IH]; intros a; simpl.
  - split; [lia|]. split; [by intros x []|by left].
  - destruct (IH (Z.max a y)) as (H1 & H2 & H3). split; [lia|]. split.
    + intros x [<-|Hx]; [lia|auto].
    + destruct H3 as [H3|H3]; [|by right; right].
      destruct (Z.max_spec a y) as [[_ Hm]|[_ Hm]]; [right; left|left]; lia.
Qed.

(** [group_start] is the least start of the group and is the start of one
    of its members; [group_end] is the greatest end. *)
Lemma group_start_spec (g : list EntitySpan.t) :
  g <> [] ->
  (forall x, In x g -> group_start g <= EntitySpan.start x)
  /\ exists x, In x g /\ group_start g = EntitySpan.start x.
Proof.
  destruct g as [|e g]; [done|]. intros _. unfold group_start. cbn.
  destruct (fold_min_spec (map EntitySpan.start g) (EntitySpan.start e))
    as (H1 & H2 & H3).
  split.
  - intros x [<-|Hx]; [exact H1|]. apply H2. by apply in_map.
  - destruct H3 as [H3|H3]; [exists e; split; [by left|done]|].
    apply in_map_iff in H3 as (x & Hx & Hin). exists x. split; [by right|done].
Qed.

Lemma group_end_spec (g : list EntitySpan.t) :
  g <> [] ->
  (forall x, In x g -> EntitySpan.end_ x <= group_end g)
  /\ exists x, In x g /\ group_end g = EntitySpan.end_ x.
Proof.
  destruct g as [|e g]; [done|]. intros _. unfold group_end. cbn.
  destruct (fold_max_spec (map EntitySpan.end_ g) (EntitySpan.end_ e))
    as (H1 & H2 & H3).
  split.
  - intros x [<-|Hx]; [exact H1|]. apply H2. by apply in_map.
  - destruct H3 as [H3|H3]; [exists e; split; [by left|done]|].
    apply in_map_iff in H3 as (x & Hx & Hin). exists x. split; [by right|done].
Qed.

(** On a sorted list of proper spans each group ends before the later
    groups start. *)
Lemma resolve_overlaps_ordered (l : list EntitySpan.t) :
  sorted_by_key l -> Forall proper_span l ->
  ForallOrdPairs ends_before (resolve_overlaps l).
Proof.
  intros Hsorted Hproper.
  destruct l as [|first rest]; [constructor|]. unfold resolve_overlaps.
  assert (Hinv : loop_inv [] [first] rest).
  { constructor.
    - constructor.
    - constructor.
    - constructor.
    - apply well_chained_singleton.
    - by apply sorted_by_key_start.
    - exact Hproper. }
  apply resolve_loop_inv in Hinv.
  destruct (fold_left resolve_step rest ([], [first])) as [groups cur].
  destruct Hinv as [Hord Hclosed _ _ _ _]. rewrite app_nil_r in Hclosed.
  by apply ForallOrdPairs_snoc.
Qed.

Lemma layout_tiles (passage : string) (L : list (list EntitySpan.t)) :
  forall last_pos,
  0 <= last_pos ->
  ForallOrdPairs ends_before L ->
  Forall (fun g => g <> [] /\ Forall proper_span g
                   /\ Forall (fun e => last_pos <= EntitySpan.start e) g) L ->
  layout (fun s => s) (group_interval_text passage) passage L last_pos
  = Py.slice_from passage last_pos.
Proof.
  induction L as [|g L IH]; intros last_pos Hlast Hord Hall; cbn [layout].
  - by apply tail_text_slice.
  - apply Forall_cons_1 in Hall as [(Hne & Hprop & Hge) Hall].
    destruct (group_start_spec g Hne) as [_ (x & Hx & Hgs)].
    destruct (group_end_spec g Hne) as [Hmax (z & Hz & Hgez)].
    rewrite List.Forall_forall in Hprop, Hge.
    assert (Hs1 : last_pos <= group_start g) by (rewrite Hgs; auto).
    assert (Hs2 : group_start g <= group_end g).
    { rewrite Hgs. specialize (Hprop x Hx). specialize (Hmax x Hx).
      unfold proper_span in Hprop. lia. }
    inversion Hord as [|? ? Hhead Htail]; subst.
    rewrite IH; [| lia | exact Htail |].
    + rewrite gap_text_slice by lia. unfold group_interval_text.
      rewrite (slice_split passage (group_start g) (group_end g)) by lia.
      apply slice_split. lia.
    + rewrite List.Forall_forall in Hall, Hhead. apply List.Forall_forall.
      intros g' Hg'. destruct (Hall g' Hg') as (Hne' & Hprop' & _).
      split; [done|]. split; [done|]. apply List.Forall_forall.
      intros y Hy. rewrite Hgez. apply (Hhead g' Hg' z y Hz Hy).
Qed.

(** X9: for a list sorted by the sort key whose spans have [start < end]
    and do not start before offset 0, the passage text [markup_text] emits
    between the groups and after the last one, together with the passage
    text under each group interval, is the whole passage, in order and
    without repetition. *)
Theorem markup_gaps_tile (passage : string) (l : list EntitySpan.t) :
  sorted_by_key l -> Forall proper_span l ->
  Forall (fun e => 0 <= EntitySpan.start e) l ->
  markup_text passage l
  = layout PyLib.html_escape render_group passage (resolve_overlaps l) 0
  /\ layout (fun s => s) (group_interval_text passage) passage
       (resolve_overlaps l) 0
     = passage.
Proof.
  intros Hsorted Hproper Hnonneg. split; [apply markup_text_layout|].
  rewrite layout_tiles; [apply slice_from_zero|lia| |].
  - by apply resolve_overlaps_ordered.
  - pose proof (resolve_overlaps_nonempty l) as Hne.
    pose proof (resolve_overlaps_concat l) as Hcat.
    rewrite List.Forall_forall in *. intros g Hg.
    assert (Hsub : forall e, In e g -> In e l).
    { intros e He. rewrite <- Hcat. apply in_concat. eauto. }
    split; [by apply Hne|]. split; apply List.Forall_forall; auto.
Qed.

Lemma markup_gaps_tile_witness :
  markup_text "hello world" overlap_demo
  = layout PyLib.html_escape render_group "hello world"
      (resolve_overlaps overlap_demo) 0
  /\ layout (fun s => s) (group_interval_text "hello world") "hello world"
       (resolve_overlaps overlap_demo) 0
     = "hello world".
Proof.
  apply (markup_gaps_tile "hello world" overlap_demo).
  - repeat constructor.
  - repeat constructor; unfold proper_span; simpl; lia.
  - repeat constructor; simpl; lia.
Defined.

(** ** From a record to its groups *)

Lemma by_source_In (src : Source) (l : list EntitySpan.t) (e : EntitySpan.t) :
  In e (by_source src l) <-> In e l /\ EntitySpan.source e = src.
Proof.
  unfold by_source. rewrite filter_In, bool_decide_eq_true. reflexivity.
Qed.

(** X10: for a record whose span strings for a source are all non-empty,
    the spans the report loop renders for that source are sorted, have
    [0 <= start < end <= len(passage)], fall into groups such that spans
    of different groups never overlap, and the gaps and group intervals of
    the rendering tile the passage. *)
Theorem record_spans_grouped (item : Item) (src : Source) :
  (forall a, In a (annotations_of src item) -> span a <> "") ->
  let l := by_source src (extract_entities item) in
  sorted_by_key l
  /\ Forall (fun e => 0 <= EntitySpan.start e < EntitySpan.end_ e
                      /\ EntitySpan.end_ e <= Py.len (item_text item)) l
  /\ (forall (i j : nat) g g' x y,
        i <> j ->
        resolve_overlaps l !! i = Some g -> resolve_overlaps l !! j = Some g' ->
        In x g -> In y g' -> overlaps x y = false)
  /\ layout (fun s => s) (group_interval_text (item_text item))
       (item_text item) (resolve_overlaps l) 0
     = item_text item.
Proof.
  intros Hspans l.
  assert (Hsorted : sorted_by_key l)
    by apply filter_strongly_sorted, extract_entities_sorted.
  assert (Hbounds : Forall (fun e => 0 <= EntitySpan.start e < EntitySpan.end_ e
                      /\ EntitySpan.end_ e <= Py.len (item_text item)) l).
  { apply List.Forall_forall. intros e He. subst l.
    apply by_source_In in He as [He Hsrc]. apply sorted_In in He.
    pose proof (collect_entities_placed item) as Hplaced.
    pose proof (collect_entities_from_item item) as Hfrom.
    rewrite List.Forall_forall in Hplaced, Hfrom.
    destruct (Hplaced e He) as (H0 & Hend & Hlen & _).
    destruct (Hfrom e He) as (a & Ha & Htext & _).
    rewrite Hsrc in Ha. apply Hspans in Ha. rewrite <- Htext in Ha.
    unfold Py.len in *. destruct (EntitySpan.text e) as [|c s]; [done|].
    cbn [String.length] in Hend. lia. }
  assert (Hproper : Forall proper_span l).
  { eapply List.Forall_impl; [|exact Hbounds]. intros e He.
    cbv beta in He. unfold proper_span. lia. }
  assert (Hnonneg : Forall (fun e => 0 <= EntitySpan.start e) l).
  { eapply List.Forall_impl; [|exact Hbounds]. intros e He. cbv beta in He. lia. }
  split; [exact Hsorted|]. split; [exact Hbounds|]. split.
  - pose proof (resolve_overlaps_ordered l Hsorted Hproper) as Hord.
    intros i j g g' x y Hij Hi Hj Hx Hy.
    destruct (Nat.lt_total i j) as [Hlt|[Heq|Hgt]]; [|done|].
    + pose proof (ForallOrdPairs_lookup _ _ Hord i j g g' Hlt Hi Hj) as Hb.
      apply (ends_before_no_overlap g g' x y Hb Hx Hy).
    + pose proof (ForallOrdPairs_lookup _ _ Hord j i g' g Hgt Hj Hi) as Hb.
      apply (ends_before_no_overlap g' g y x Hb Hy Hx).
  - rewrite layout_tiles; [apply slice_from_zero|lia| |].
    + by apply resolve_overlaps_ordered.
    + pose proof (resolve_overlaps_nonempty l) as Hne.
      pose proof (resolve_overlaps_concat l) as Hcat.
      rewrite List.Forall_forall in *. intros g Hg.
      assert (Hsub : forall e, In e g -> In e l).
      { intros e He. rewrite <- Hcat. apply in_concat. eauto. }
      split; [by apply Hne|]. split; apply List.Forall_forall; auto.
Qed.

Lemma record_spans_grouped_witness :
  let l := by_source ground_truth (extract_entities overhang_item) in
  sorted_by_key l
  /\ Forall (fun e => 0 <= EntitySpan.start e < EntitySpan.end_ e
                      /\ EntitySpan.end_ e <= Py.len (item_text overhang_item)) l
  /\ (forall (i j : nat) g g' x y,
        i <> j ->
        resolve_overlaps l !! i = Some g -> resolve_overlaps l !! j = Some g' ->
        In x g -> In y g' -> overlaps x y = false)
  /\ layout (fun s => s) (group_interval_text (item_text overhang_item))
       (item_text overhang_item) (resolve_overlaps l) 0
     = item_text overhang_item.
Proof.
  apply (record_spans_grouped overhang_item ground_truth).
  intros a [<-|[<-|[]]]; discriminate.
Defined.

(** ** Colours *)

Lemma dict_get_In (d : list (string * string)) (k v : string) :
  dict_get d k = Some v -> In v (map snd d).
Proof.
  induction d as [|[k' v'] d IH]; simpl; [done|].
  destruct (String.eqb k k'); [intros [= ->]; by left|]. intros H. right. auto.
Qed.

Lemma get_primary_color_matched (tys : list string) :
  get_primary_color tys = hd default_color (matched_colors tys).
Proof.
  unfold matched_colors. induction tys as [|ty tys IH]; [reflexivity|].
  cbn [get_primary_color omap list_omap].
  destruct (dict_get entity_colors ty); [reflexivity|exact IH].
Qed.

Lemma matched_colors_In (tys : list string) (c : string) :
  In c (matched_colors tys) -> In c (map snd entity_colors).
Proof.
  unfold matched_colors. intros H.
  apply list_elem_of_In, list_elem_of_omap in H as (ty & _ & Hty).
  by apply dict_get_In in Hty.
Qed.

(** X11: [get_combined_colors] depends on the types only through their
    table colours (types without one are ignored, also by the early
    return for a single type): no colour gives the default twice, one
    colour gives it twice, two give the 50/50 gradient, more give the
    stripes; the first result is always [get_primary_color] of the types,
    and that is always a colour of the table. *)
Theorem combined_colors_of_matched (tys : list string) :
  get_combined_colors tys = colors_of_matched (matched_colors tys)
  /\ fst (get_combined_colors tys) = get_primary_color tys
  /\ In (get_primary_color tys) (map snd entity_colors).
Proof.
  assert (H1 : get_combined_colors tys = colors_of_matched (matched_colors tys)).
  { unfold get_combined_colors.
    destruct tys as [|ty [|ty' tys]].
    - reflexivity.
    - cbn [length Nat.leb]. rewrite get_primary_color_matched.
      unfold matched_colors. cbn [omap list_omap].
      by destruct (dict_get entity_colors ty).
    - cbn [length Nat.leb].
      by destruct (matched_colors (ty :: ty' :: tys)) as [|c0 [|c1 [|c2 l]]]. }
  assert (H2 : fst (colors_of_matched (matched_colors tys))
               = get_primary_color tys).
  { rewrite get_primary_color_matched.
    by destruct (matched_colors tys) as [|c0 [|c1 [|c2 l]]]. }
  split; [exact H1|]. split; [by rewrite H1|].
  rewrite get_primary_color_matched.
  destruct (matched_colors tys) as [|c l] eqn:E.
  - vm_compute. do 12 right. by left.
  - apply (matched_colors_In tys). rewrite E. by left.
Qed.

(** ** A group whose primary has no [title=] *)

(** X12: whenever the HTML of the longest span of a group has no
    [title=] followed by a double quote in it, the group is rendered as
    exactly that HTML: the
    replacement that should add the summaries of the other spans finds
    nothing to replace, whatever and however many the other spans are. *)
Theorem secondaries_leave_no_trace (g : list EntitySpan.t)
    (primary : EntitySpan.t) :
  PyLib.max_by span_length g = Some primary ->
  Py.contains ("title=" +:+ PyLib.dq) (create_entity_html primary true) = false ->
  render_group g = create_entity_html primary true.
Proof. apply render_group_without_title. Qed.

Lemma secondaries_leave_no_trace_witness :
  render_group [overhang_primary; overhang_secondary]
  = create_entity_html overhang_primary true.
Proof.
  apply (secondaries_leave_no_trace [overhang_primary; overhang_secondary]
           overhang_primary).
  - reflexivity.
  - vm_compute. reflexivity.
Defined.

(** ** [compare_annotations]: how the counts relate *)

Lemma string_leb_total (x y : string) :
  String.leb x y = false -> String.leb y x = true.
Proof. intros H. destruct (String.leb_total x y); congruence. Qed.

Lemma string_leb_trans (x y z : string) :
  String.leb x y = true -> String.leb y z = true -> String.leb x z = true.
Proof.
  intros H1 H2. apply Is_true_true. apply Is_true_true in H1, H2.
  change (String.le x z). by transitivity y.
Qed.

(** [sorted(types)] does not depend on the order the types come in. *)
Lemma sorted_types_perm (t t' : list string) :
  Permutation t t' ->
  PyLib.sorted String.leb t = PyLib.sorted String.leb t'.
Proof.
  intros H.
  apply (StronglySorted_unique_strong (holds String.leb)).
  - intros x y _ _. apply String.leb_antisym.
  - apply sorted_sorted; [apply string_leb_total|apply string_leb_trans].
  - apply sorted_sorted; [apply string_leb_total|apply string_leb_trans].
  - rewrite !sorted_perm. exact H.
Qed.

Lemma same_span_triple (e e' : EntitySpan.t) :
  same_span e e' -> span_triple e = span_triple e'.
Proof.
  intros (Hs & He & Ht). unfold span_triple.
  by rewrite Hs, He, (sorted_types_perm _ _ Ht).
Qed.

Lemma span_set_In (t : Z * Z * list string) (l : list EntitySpan.t) :
  t ∈ span_set l <-> exists e, In e l /\ t = span_triple e.
Proof.
  unfold span_set. rewrite elem_of_list_to_set, list_elem_of_fmap.
  split; intros (e & H1 & H2); exists e; split; auto; by apply list_elem_of_In.
Qed.

Lemma position_set_In (p : Z * Z) (l : list EntitySpan.t) :
  p ∈ position_set l <-> exists e, In e l /\ p = span_position e.
Proof.
  unfold position_set. rewrite elem_of_list_to_set, list_elem_of_fmap.
  split; intros (e & H1 & H2); exists e; split; auto; by apply list_elem_of_In.
Qed.

Lemma covered_span_set (l l' : list EntitySpan.t) :
  covered_by l l' -> span_set l ⊆ span_set l'.
Proof.
  intros H t Ht. apply span_set_In in Ht as (e & He & ->).
  destruct (H e He) as (e' & He' & Hsame).
  apply span_set_In. exists e'. split; [done|]. by apply same_span_triple.
Qed.

Lemma covered_position_set (l l' : list EntitySpan.t) :
  covered_by l l' -> position_set l ⊆ position_set l'.
Proof.
  intros H p Hp. apply position_set_In in Hp as (e & He & ->).
  destruct (H e He) as (e' & He' & (Hs & Hend & _)).
  apply position_set_In. exists e'. split; [done|].
  unfold span_position. by rewrite Hs, Hend.
Qed.

(** X13: [compare_annotations] looks at a span list only as a set of
    (start, end, types-up-to-order): two pairs of lists whose spans cover
    each other in that sense give the same result, so the order of the
    spans, repeated spans, the order of the types, and the text, source
    and occurrence index of a span do not matter. *)
Theorem compare_annotations_invariant
    (gt gt' model model' : list EntitySpan.t) :
  covered_by gt gt' -> covered_by gt' gt ->
  covered_by model model' -> covered_by model' model ->
  compare_annotations gt model = compare_annotations gt' model'.
Proof.
  intros G1 G2 M1 M2.
  assert (Hg : span_set gt = span_set gt').
  { apply set_eq. intros t. split; by apply covered_span_set. }
  assert (Hm : span_set model = span_set model').
  { apply set_eq. intros t. split; by apply covered_span_set. }
  assert (Hgp : position_set gt = position_set gt').
  { apply set_eq. intros t. split; by apply covered_position_set. }
  assert (Hmp : position_set model = position_set model').
  { apply set_eq. intros t. split; by apply covered_position_set. }
  unfold compare_annotations, exact_match_positions.
  by rewrite Hg, Hm, Hgp, Hmp.
Qed.

Lemma compare_annotations_invariant_witness :
  compare_annotations reordered_ground_truth example_model
  = compare_annotations plain_ground_truth example_model.
Proof.
  apply (compare_annotations_invariant reordered_ground_truth
           plain_ground_truth example_model example_model).
  - intros e [<-|[<-|[<-|[]]]].
    + eexists. split; [right; by left|].
      repeat split. simpl. apply perm_swap.
    + eexists. split; [by left|]. by repeat split.
    + eexists. split; [by left|]. by repeat split.
  - intros e [<-|[<-|[]]].
    + eexists. split; [right; by left|]. by repeat split.
    + eexists. split; [by left|]. repeat split. simpl. apply perm_swap.
  - intros e He. exists e. by repeat split.
  - intros e He. exists e. by repeat split.
Defined.

Lemma size_list_to_set_le `{Countable A} (l : list A) :
  (size (list_to_set l : gset A) <= length l)%nat.
Proof.
  induction l as [|x l IH].
  - rewrite list_to_set_nil, size_empty. simpl. lia.
  - rewrite list_to_set_cons, size_union_alt, size_singleton. cbn [length].
    assert (Hs : (size (list_to_set l ∖ {[x]} : gset A)
                  <= size (list_to_set l : gset A))%nat)
      by (apply subseteq_size, subseteq_difference_l; reflexivity).
    lia.
Qed.

Lemma size_set_map_le `{Countable A} `{Countable B} (f : A -> B) (X : gset A) :
  (size (set_map f X : gset B) <= size X)%nat.
Proof.
  unfold set_map. etransitivity; [apply size_list_to_set_le|].
  by rewrite length_fmap.
Qed.

Lemma size_inter_diff `{Countable A} (X Y : gset A) :
  (size (X ∩ Y) + size (X ∖ Y) = size X)%nat.
Proof.
  pose proof (size_difference_alt X Y).
  assert (Hs : (size (X ∩ Y) <= size X)%nat)
    by (apply subseteq_size, intersection_subseteq_l).
  lia.
Qed.

Lemma compare_add_up (ground_truth_l model_entities : list EntitySpan.t) :
  let r := compare_annotations ground_truth_l model_entities in
  ComparisonResult.exact_matches r + ComparisonResult.ground_truth_only r
  = ComparisonResult.total_ground_truth r
  /\ ComparisonResult.exact_matches r + ComparisonResult.model_only r
     = ComparisonResult.total_model r
  /\ ComparisonResult.type_mismatches r = 0.
Proof.
  unfold compare_annotations, set_len. simpl.
  pose proof (size_inter_diff (span_set ground_truth_l) (span_set model_entities)).
  pose proof (size_inter_diff (span_set model_entities) (span_set ground_truth_l)).
  rewrite (comm_L (∩) (span_set model_entities) (span_set ground_truth_l)) in *.
  repeat split; lia.
Qed.

(** X14: the counts of one comparison add up: every ground-truth triple
    is either an exact match or ground-truth-only, every model triple is
    either an exact match or model-only, and [type_mismatches] is never
    counted (it stays 0). *)
Theorem compare_counts_add_up
    (ground_truth_l model_entities : list EntitySpan.t) :
  let r := compare_annotations ground_truth_l model_entities in
  ComparisonResult.exact_matches r + ComparisonResult.ground_truth_only r
  = ComparisonResult.total_ground_truth r
  /\ ComparisonResult.exact_matches r + ComparisonResult.model_only r
     = ComparisonResult.total_model r
  /\ ComparisonResult.type_mismatches r = 0.
Proof. apply compare_add_up. Qed.

Lemma partial_within (ground_truth_l model_entities : list EntitySpan.t) :
  let r := compare_annotations ground_truth_l model_entities in
  0 <= ComparisonResult.partial_matches r
  /\ ComparisonResult.partial_matches r <= ComparisonResult.ground_truth_only r
  /\ ComparisonResult.partial_matches r <= ComparisonResult.model_only r.
Proof.
  unfold compare_annotations, set_len. simpl.
  set (G := span_set ground_truth_l). set (M := span_set model_entities).
  set (P := (position_set ground_truth_l ∩ position_set model_entities)
            ∖ exact_match_positions ground_truth_l model_entities).
  assert (HG : P ⊆ set_map (fun t : Z * Z * list string => fst t) (G ∖ M)).
  { intros p Hp. apply elem_of_difference in Hp as [Hp Hex].
    apply elem_of_intersection in Hp as [Hpg _].
    apply position_set_In in Hpg as (e & He & ->).
    apply elem_of_map. exists (span_triple e). split; [reflexivity|].
    apply elem_of_difference. split; [apply span_set_In; eauto|].
    intros Hm. apply Hex. apply elem_of_map. exists (span_triple e).
    split; [reflexivity|]. apply elem_of_intersection. split; [|exact Hm].
    apply span_set_In; eauto. }
  assert (HM : P ⊆ set_map (fun t : Z * Z * list string => fst t) (M ∖ G)).
  { intros p Hp. apply elem_of_difference in Hp as [Hp Hex].
    apply elem_of_intersection in Hp as [_ Hpm].
    apply position_set_In in Hpm as (e & He & ->).
    apply elem_of_map. exists (span_triple e). split; [reflexivity|].
    apply elem_of_difference. split; [apply span_set_In; eauto|].
    intros Hg. apply Hex. apply elem_of_map. exists (span_triple e).
    split; [reflexivity|]. apply elem_of_intersection. split; [exact Hg|].
    apply span_set_In; eauto. }
  apply subseteq_size in HG, HM.
  pose proof (size_set_map_le (fun t : Z * Z * list string => fst t) (G ∖ M)).
  pose proof (size_set_map_le (fun t : Z * Z * list string => fst t) (M ∖ G)).
  lia.
Qed.

(** X15: a partial match is no category of its own: every position
    counted in [partial_matches] carries a ground-truth triple counted in
    [ground_truth_only] and a model triple counted in [model_only], so
    [partial_matches] exceeds neither. *)
Theorem partial_matches_within_only_counts
    (ground_truth_l model_entities : list EntitySpan.t) :
  let r := compare_annotations ground_truth_l model_entities in
  0 <= ComparisonResult.partial_matches r
  /\ ComparisonResult.partial_matches r <= ComparisonResult.ground_truth_only r
  /\ ComparisonResult.partial_matches r <= ComparisonResult.model_only r.
Proof. apply partial_within. Qed.

(** X16: swapping the two span lists swaps [ground_truth_only] with
    [model_only] and the two totals, and leaves [exact_matches] and
    [partial_matches] as they are. *)
Theorem compare_annotations_swap (l1 l2 : list EntitySpan.t) :
  let r := compare_annotations l1 l2 in
  let r' := compare_annotations l2 l1 in
  ComparisonResult.exact_matches r' = ComparisonResult.exact_matches r
  /\ ComparisonResult.partial_matches r' = ComparisonResult.partial_matches r
  /\ ComparisonResult.ground_truth_only r' = ComparisonResult.model_only r
  /\ ComparisonResult.model_only r' = ComparisonResult.ground_truth_only r
  /\ ComparisonResult.total_ground_truth r' = ComparisonResult.total_model r
  /\ ComparisonResult.total_model r' = ComparisonResult.total_ground_truth r.
Proof.
  unfold compare_annotations, exact_match_positions. simpl.
  rewrite (comm_L (∩) (span_set l2) (span_set l1)).
  rewrite (comm_L (∩) (position_set l2) (position_set l1)).
  repeat split.
Qed.

Lemma position_set_exact (l : list EntitySpan.t) :
  position_set l ⊆ exact_match_positions l l.
Proof.
  intros p Hp. apply position_set_In in Hp as (e & He & ->).
  apply elem_of_map. exists (span_triple e). split; [reflexivity|].
  apply elem_of_intersection. split; apply span_set_In; eauto.
Qed.

(** X17: a span list compared with itself is all exact matches: both
    totals equal [exact_matches], nothing is ground-truth-only,
    model-only or partial, and the precision and recall computed from it
    are 1 unless the list is empty (then 0). *)
Theorem compare_annotations_self (l : list EntitySpan.t) :
  let r := compare_annotations l l in
  ComparisonResult.exact_matches r = ComparisonResult.total_ground_truth r
  /\ ComparisonResult.total_model r = ComparisonResult.total_ground_truth r
  /\ ComparisonResult.ground_truth_only r = 0
  /\ ComparisonResult.model_only r = 0
  /\ ComparisonResult.partial_matches r = 0
  /\ (precision r == if bool_decide (l = []) then 0 else 1)%Q
  /\ (recall r == if bool_decide (l = []) then 0 else 1)%Q.
Proof.
  intros r.
  assert (He : ComparisonResult.exact_matches r = set_len (span_set l)).
  { subst r. unfold compare_annotations. simpl.
    by rewrite (idemp_L (∩) (span_set l)). }
  assert (Ht : ComparisonResult.total_ground_truth r = set_len (span_set l))
    by reflexivity.
  assert (Hm : ComparisonResult.total_model r = set_len (span_set l))
    by reflexivity.
  assert (Hd : span_set l ∖ span_set l = ∅) by apply difference_diag_L.
  assert (Hp : (position_set l ∩ position_set l) ∖ exact_match_positions l l = ∅).
  { apply set_eq. intros p. rewrite elem_of_difference, elem_of_intersection.
    split; [|by intros ?%not_elem_of_empty].
    intros [[Hin _] Hout]. destruct Hout. by apply position_set_exact. }
  assert (Hq : (inject_Z (set_len (span_set l))
                / inject_Z (Z.max (set_len (span_set l)) 1)
                == if bool_decide (l = []) then 0 else 1)%Q).
  { destruct l as [|e l'].
    - reflexivity.
    - rewrite bool_decide_eq_false_2 by done.
      assert (Hpos : 0 < set_len (span_set (e :: l'))).
      { unfold set_len.
        assert (size (span_set (e :: l')) <> 0%nat); [|lia].
        apply size_non_empty_iff. intros Hempty.
        apply (not_elem_of_empty (C := gset (Z * Z * list string))
                 (span_triple e)).
        rewrite <- Hempty. apply span_set_In. exists e. split; [by left|done]. }
      rewrite Z.max_l by lia. apply Qmult_inv_r.
      unfold Qeq. simpl. lia. }
  subst r. unfold precision, recall. rewrite He, Ht, Hm in *.
  unfold compare_annotations. cbn [ComparisonResult.ground_truth_only
    ComparisonResult.model_only ComparisonResult.partial_matches].
  rewrite Hd, Hp. repeat split; done.
Qed.

(** ** The aggregates of the report *)

Lemma compare_counts (ground_truth_l model_entities : list EntitySpan.t) :
  counts_add_up (compare_annotations ground_truth_l model_entities).
Proof.
  destruct (compare_add_up ground_truth_l model_entities) as (H1 & H2 & H3).
  destruct (partial_within ground_truth_l model_entities) as (H4 & H5 & H6).
  repeat split; assumption.
Qed.

Lemma accumulate_add_up (total r : ComparisonResult.t) :
  counts_add_up total -> counts_add_up r -> counts_add_up (accumulate total r).
Proof. unfold counts_add_up, accumulate. simpl. lia. Qed.

Lemma accumulate_all_add_up (items : list Item) :
  forall totals : ComparisonResult.t * ComparisonResult.t,
  counts_add_up (fst totals) -> counts_add_up (snd totals) ->
  ComparisonResult.total_ground_truth (fst totals)
  = ComparisonResult.total_ground_truth (snd totals) ->
  let totals' :=
    fold_left
      (fun totals item =>
         (accumulate (fst totals) (fst (item_comparisons item)),
          accumulate (snd totals) (snd (item_comparisons item))))
      items totals in
  counts_add_up (fst totals') /\ counts_add_up (snd totals')
  /\ ComparisonResult.total_ground_truth (fst totals')
     = ComparisonResult.total_ground_truth (snd totals').
Proof.
  induction items as [|item items IH]; intros totals H1 H2 H3; [done|].
  cbn [fold_left]. apply IH; cbn [fst snd].
  - apply accumulate_add_up; [done|apply compare_counts].
  - apply accumulate_add_up; [done|apply compare_counts].
  - unfold accumulate, item_comparisons, compare_annotations. simpl.
    by rewrite H3.
Qed.

(** X18: the relations between the counters survive the summing over the
    records: in both aggregates of a report exact matches plus
    ground-truth-only spans give the ground-truth total, exact matches
    plus model-only spans give the model total, partial matches exceed
    neither only-count, and [type_mismatches] is still 0; and the two
    aggregates have the same ground-truth total, the one the summary
    table prints for both models. *)
Theorem aggregate_counts_add_up (items : list Item) :
  counts_add_up (fst (total_comparisons items))
  /\ counts_add_up (snd (total_comparisons items))
  /\ ComparisonResult.total_ground_truth (fst (total_comparisons items))
     = ComparisonResult.total_ground_truth (snd (total_comparisons items)).
Proof.
  apply accumulate_all_add_up; try reflexivity;
    unfold counts_add_up; simpl; lia.
Qed.

Lemma f1_bounds (p r : Q) :
  (0 <= p <= 1 -> 0 <= r <= 1 ->
   0 <= 2 * p * r / Qmax (p + r) (1 # 1000) <= 1)%Q.
Proof.
  intros Hp Hr.
  assert (Hm : (0 < Qmax (p + r) (1 # 1000))%Q).
  { apply Qlt_le_trans with (1 # 1000)%Q; [reflexivity|apply Q.le_max_r]. }
  split.
  - apply Qle_shift_div_l; [exact Hm|]. rewrite Qmult_0_l. nra.
  - apply Qle_shift_div_r; [exact Hm|]. rewrite Qmult_1_l.
    apply Qle_trans with (p + r)%Q; [nra|apply Q.le_max_l].
Qed.

Lemma quotient_zero_iff (num den : Z) :
  0 <= num -> (inject_Z num / inject_Z (Z.max den 1) == 0)%Q <-> num = 0.
Proof.
  intros Hnum.
  assert (Hpos : (0 < inject_Z (Z.max den 1))%Q) by (unfold Qlt; simpl; lia).
  split.
  - intros H.
    assert (H' : (inject_Z num == 0 * inject_Z (Z.max den 1))%Q).
    { rewrite <- H. field. intros Hz. rewrite Hz in Hpos.
      by apply Qlt_irrefl in Hpos. }
    rewrite Qmult_0_l in H'. unfold Qeq in H'. simpl in H'. lia.
  - intros ->. unfold Qdiv. apply Qmult_0_l.
Qed.

(** X19: the F1 score of the summary table, computed from either
    aggregate of a report with exact arithmetic, lies between 0 and 1, and
    it is 0 exactly when that aggregate has no exact match. *)
Theorem aggregate_f1_score (items : list Item) (r : ComparisonResult.t) :
  r = fst (total_comparisons items) \/ r = snd (total_comparisons items) ->
  (0 <= f1_score r <= 1)%Q
  /\ ((f1_score r == 0)%Q <-> ComparisonResult.exact_matches r = 0).
Proof.
  intros Hr.
  assert (Hb : counts_bounded r).
  { destruct (total_comparisons_bounded items) as [H1 H2].
    destruct Hr as [->| ->]; assumption. }
  destruct Hb as [Hm Hg].
  destruct (guarded_quotient (ComparisonResult.exact_matches r)
              (ComparisonResult.total_model r)) as [_ Hp]; [lia|].
  destruct (guarded_quotient (ComparisonResult.exact_matches r)
              (ComparisonResult.total_ground_truth r)) as [_ Hrc]; [lia|].
  fold (precision r) in Hp. fold (recall r) in Hrc.
  split; [by apply f1_bounds|].
  assert (Hmax : (0 < Qmax (precision r + recall r) (1 # 1000))%Q).
  { apply Qlt_le_trans with (1 # 1000)%Q; [reflexivity|apply Q.le_max_r]. }
  unfold f1_score. split.
  - intros H.
    assert (H' : (2 * precision r * recall r == 0)%Q).
    { assert (Hne : ~ (Qmax (precision r + recall r) (1 # 1000) == 0)%Q).
      { intros Hz. rewrite Hz in Hmax. by apply Qlt_irrefl in Hmax. }
      transitivity (2 * precision r * recall r
                    / Qmax (precision r + recall r) (1 # 1000)
                    * Qmax (precision r + recall r) (1 # 1000))%Q.
      - field. exact Hne.
      - rewrite H. apply Qmult_0_l. }
    assert (H2 : (precision r == 0 \/ recall r == 0)%Q).
    { destruct (Qmult_integral _ _ H') as [H2|H2]; [|by right].
      destruct (Qmult_integral _ _ H2) as [H3|H3]; [discriminate H3|by left]. }
    destruct H2 as [H2|H2]; unfold precision, recall in H2;
      apply quotient_zero_iff in H2; lia.
  - intros He.
    assert (Hp0 : (precision r == 0)%Q)
      by (unfold precision; apply quotient_zero_iff; lia).
    rewrite Hp0. unfold Qdiv. rewrite Qmult_0_r, !Qmult_0_l. reflexivity.
Qed.

Lemma aggregate_f1_score_witness :
  let r := fst (total_comparisons [report_demo_item; report_demo_item]) in
  (0 <= f1_score r <= 1)%Q
  /\ ((f1_score r == 0)%Q <-> ComparisonResult.exact_matches r = 0).
Proof.
  intros r.
  apply (aggregate_f1_score [report_demo_item; report_demo_item] r).
  left. reflexivity.
Defined.

(** ** Passage text outside the spans *)

Lemma gaps_clean (passage : string) (groups : list (list EntitySpan.t)) :
  forall last_pos,
  string_forallb (fun x => negb (markup_char x))
    (layout PyLib.html_escape (fun _ => "") passage groups last_pos) = true.
Proof.
  induction groups as [|g gs IH]; intros last_pos; cbn [layout].
  - apply html_escape_clean.
  - by rewrite !string_forallb_app, html_escape_clean, IH.
Qed.

(** X20: passage text outside the spans cannot inject markup: with no
    span at all [markup_text] returns the escaped passage, which holds no
    angle bracket and no quote, and for any span list the text emitted
    between and after the groups (the rendering with the HTML of the
    groups left out) holds none either. *)
Theorem passage_text_escaped (passage : string) (l : list EntitySpan.t) :
  markup_text passage [] = PyLib.html_escape passage
  /\ string_forallb (fun x => negb (markup_char x)) (markup_text passage [])
     = true
  /\ string_forallb (fun x => negb (markup_char x))
       (layout PyLib.html_escape (fun _ => "") passage (resolve_overlaps l) 0)
     = true.
Proof.
  split; [reflexivity|]. split; [apply html_escape_clean|apply gaps_clean].
Qed.

(** * The rendered groups and their superscripts *)

(** ** [str.replace] next to escaped text *)

Lemma replace_nonempty (s old new : string) :
  old <> "" -> PyLib.replace s old new = PyLib.replace_from 0 old new s.
Proof. by destruct old. Qed.

Section ReplaceAround.

Variables (q c0 : ascii) (text rest : string).
Hypothesis text_free : string_forallb (fun c => negb (Ascii.eqb c q)) text = true.

Lemma prefix_nil (s : string) : String.prefix "" s = true.
Proof. by destruct s. Qed.

(** A string that ends with [q] and does not hold [c0] is no prefix of
    [q]-free text followed by [c0]. *)
Lemma prefix_blocked : forall (t o : string),
  string_forallb (fun c => negb (Ascii.eqb c q)) t = true ->
  ends_with q o = true ->
  string_forallb (fun c => negb (Ascii.eqb c c0)) o = true ->
  String.prefix o (t +:+ String c0 rest) = false.
Proof.
  induction t as [|e t IH]; intros o Ht Ho Hc.
  - destruct o as [|x o]; [done|]. rewrite string_app_nil_l. simpl.
    destruct (ascii_dec x c0) as [->|Hne]; [|reflexivity].
    simpl in Hc. by rewrite Ascii.eqb_refl in Hc.
  - destruct o as [|x o]; [done|]. rewrite string_app_cons. simpl.
    destruct (ascii_dec x e) as [->|Hne]; [|reflexivity].
    simpl in Ht, Hc. apply andb_true_iff in Ht as [He Ht].
    apply andb_true_iff in Hc as [_ Hc].
    destruct o as [|y o].
    + simpl in Ho. by rewrite Ho in He.
    + apply IH; [exact Ht|exact Ho|exact Hc].
Qed.

(** Whether such a string is a prefix of [a] is not changed by putting
    [q]-free text and then [c0] behind [a]. *)
Lemma prefix_app_stable : forall (a o : string),
  ends_with q o = true ->
  string_forallb (fun c => negb (Ascii.eqb c c0)) o = true ->
  String.prefix o (a +:+ text +:+ String c0 rest) = String.prefix o a.
Proof.
  induction a as [|t a IH]; intros o Ho Hc.
  - rewrite string_app_nil_l. destruct o as [|x o]; [done|].
    rewrite prefix_blocked by done. reflexivity.
  - destruct o as [|x o]; [done|]. rewrite string_app_cons. simpl.
    destruct (ascii_dec x t) as [->|Hne]; [|reflexivity].
    destruct o as [|y o]; [by rewrite !prefix_nil|].
    simpl in Hc. apply andb_true_iff in Hc as [_ Hc].
    apply IH; [exact Ho|exact Hc].
Qed.

Lemma prefix_length : forall (o s : string),
  String.prefix o s = true -> (String.length o <= String.length s)%nat.
Proof.
  induction o as [|x o IH]; intros s H; simpl; [lia|].
  destruct s as [|c s]; [done|]. simpl in H.
  destruct (ascii_dec x c); [|done]. apply IH in H. simpl. lia.
Qed.

Variables (old new : string).
Hypothesis old_ends : ends_with q old = true.
Hypothesis old_free : string_forallb (fun c => negb (Ascii.eqb c c0)) old = true.

(** The replacement works through [a] as if nothing followed it. *)
Lemma replace_from_before : forall (a : string) (skip : nat),
  (skip <= String.length a)%nat ->
  PyLib.replace_from skip old new (a +:+ text +:+ String c0 rest)
  = PyLib.replace_from skip old new a
    +:+ PyLib.replace_from 0 old new (text +:+ String c0 rest).
Proof.
  induction a as [|c a IH]; intros skip Hskip.
  - simpl in Hskip. replace skip with 0%nat by lia.
    by rewrite !string_app_nil_l.
  - rewrite string_app_cons. destruct skip as [|k].
    + cbn [PyLib.replace_from].
      rewrite <- (string_app_cons c a (text +:+ String c0 rest)).
      rewrite prefix_app_stable by done.
      destruct (String.prefix old (String c a)) eqn:Hp.
      * rewrite string_app_assoc. f_equal. apply IH.
        apply prefix_length in Hp. simpl in Hp. lia.
      * rewrite string_app_cons. f_equal. apply IH. lia.
    + cbn [PyLib.replace_from]. apply IH. simpl in Hskip. lia.
Qed.

(** The [q]-free text is copied as it stands. *)
Lemma replace_from_text : forall t : string,
  string_forallb (fun c => negb (Ascii.eqb c q)) t = true ->
  PyLib.replace_from 0 old new (t +:+ String c0 rest)
  = t +:+ PyLib.replace_from 0 old new (String c0 rest).
Proof.
  induction t as [|e t IH]; intros Ht.
  - by rewrite !string_app_nil_l.
  - rewrite !string_app_cons. cbn [PyLib.replace_from].
    rewrite <- (string_app_cons e t (String c0 rest)).
    rewrite prefix_blocked by done.
    simpl in Ht. apply andb_true_iff in Ht as [_ Ht]. f_equal. by apply IH.
Qed.

Lemma replace_around (a : string) :
  PyLib.replace (a +:+ text +:+ String c0 rest) old new
  = PyLib.replace a old new +:+ text +:+ PyLib.replace (String c0 rest) old new.
Proof.
  assert (Hne : old <> "").
  { intros E. pose proof old_ends as H. rewrite E in H. discriminate H. }
  rewrite !replace_nonempty by exact Hne.
  rewrite replace_from_before by lia. by rewrite replace_from_text.
Qed.

End ReplaceAround.

(** Escaped text holds no double quote. *)
Lemma html_escape_quote_free (s : string) :
  string_forallb (fun c => negb (Ascii.eqb c "034")) (PyLib.html_escape s) = true.
Proof.
  pose proof (html_escape_clean s) as H.
  induction (PyLib.html_escape s) as [|c t IH]; [reflexivity|].
  simpl in *. apply andb_true_iff in H as [Hc Ht]. rewrite IH by exact Ht.
  unfold markup_char in Hc. destruct (Ascii.eqb c "034"); [|reflexivity].
  by rewrite !orb_true_r in Hc.
Qed.

(** What follows the escaped text starts with an angle bracket or a line
    break. *)
Lemma after_text_first_char (e : EntitySpan.t) :
  exists c0 rest,
    occurrence_suffix e +:+ tooltip_html e +:+ "</span>" = String c0 rest
    /\ string_forallb (fun c => negb (Ascii.eqb c c0)) title_attr = true.
Proof.
  unfold occurrence_suffix. destruct (EntitySpan.occurrence_id e >? 1).
  - eexists "<"%char, _. split; [reflexivity|reflexivity].
  - eexists "010"%char, _. split; [reflexivity|reflexivity].
Qed.

(** A stretch without the first character of [old] is copied as it
    stands. *)
Lemma replace_keeps_prefix (o : ascii) (old' new x y : string) :
  string_forallb (fun c => negb (Ascii.eqb c o)) x = true ->
  PyLib.replace (x +:+ y) (String o old') new
  = x +:+ PyLib.replace y (String o old') new.
Proof.
  unfold PyLib.replace. induction x as [|c x IH]; intros Hx.
  - by rewrite !string_app_nil_l.
  - rewrite !string_app_cons. simpl in Hx.
    apply andb_true_iff in Hx as [Hc Hx]. cbn [PyLib.replace_from String.prefix].
    destruct (ascii_dec o c) as [->|_]; [by rewrite Ascii.eqb_refl in Hc|].
    f_equal. by apply IH.
Qed.

Lemma string_forallb_impl (f g : ascii -> bool) (s : string) :
  (forall c, f c = true -> g c = true) ->
  string_forallb f s = true -> string_forallb g s = true.
Proof.
  intros H. induction s as [|c s IH]; [done|]. simpl.
  intros [Hc Hs]%andb_true_iff. by rewrite (H c Hc), IH.
Qed.

Lemma uint_int_chars (d : Decimal.uint) :
  string_forallb int_char (NilEmpty.string_of_uint d) = true.
Proof. induction d; [reflexivity|exact IHd..]. Qed.

Lemma str_of_int_chars (i : Z) : string_forallb int_char (Py.str_of_int i) = true.
Proof.
  unfold Py.str_of_int, NilZero.string_of_int.
  destruct (Z.to_int i) as [d|d]; unfold NilZero.string_of_uint.
  - destruct d; try reflexivity; apply uint_int_chars.
  - change (string_forallb int_char (String "-" ?s))
      with (string_forallb int_char s).
    destruct d; try reflexivity; apply uint_int_chars.
Qed.

(** The superscript has no [t] in it, the first character of [title=]. *)
Lemma occurrence_suffix_no_t (e : EntitySpan.t) :
  string_forallb (fun c => negb (Ascii.eqb c "t")) (occurrence_suffix e) = true.
Proof.
  unfold occurrence_suffix. destruct (EntitySpan.occurrence_id e >? 1); [|done].
  rewrite !string_forallb_app. rewrite !andb_true_iff. repeat split; try done.
  eapply string_forallb_impl; [|apply str_of_int_chars].
  intros c Hc. destruct (Ascii.eqb_spec c "t") as [->|]; [discriminate Hc|done].
Qed.

(** The [replace] of the several-span branch leaves the escaped text of
    the longest span and its superscript where they are. *)
Lemma replace_entity_html (e : EntitySpan.t) (new : string) :
  PyLib.replace (create_entity_html e true) title_attr new
  = PyLib.replace (opening_tag e true) title_attr new
    +:+ PyLib.html_escape (EntitySpan.text e)
    +:+ occurrence_suffix e
    +:+ PyLib.replace (tooltip_html e +:+ "</span>") title_attr new.
Proof.
  unfold create_entity_html.
  destruct (after_text_first_char e) as (c0 & rest & E & Hc0). rewrite E.
  rewrite (replace_around "034"%char c0);
    [|apply html_escape_quote_free|reflexivity|exact Hc0].
  rewrite <- E. f_equal. f_equal.
  apply (replace_keeps_prefix "t"), occurrence_suffix_no_t.
Qed.

(** A rendered group is the text of its longest span, escaped, between
    the opening tag and the superscript, tooltip and closing tag of that
    span. *)
Lemma render_group_of_primary (g : list EntitySpan.t) (p : EntitySpan.t) :
  PyLib.max_by span_length g = Some p ->
  render_group g
  = group_wrap g p (opening_tag p true)
    +:+ PyLib.html_escape (EntitySpan.text p)
    +:+ occurrence_suffix p
    +:+ group_wrap g p (tooltip_html p +:+ "</span>").
Proof.
  intros Hmax. destruct g as [|e [|e' g]]; [done| |].
  - simpl in Hmax. injection Hmax as <-. reflexivity.
  - change (render_group (e :: e' :: g)) with (render_overlap_group (e :: e' :: g)).
    unfold render_overlap_group, group_wrap. rewrite Hmax.
    destruct (map secondary_summary (secondaries_of p (e :: e' :: g))) as [|i info].
    + reflexivity.
    + apply replace_entity_html.
Qed.



(** ** Where [<sup>] can stand *)

Lemma angle_guard_app (a b : string) :
  angle_guard a = true -> angle_guard (a +:+ b) = true.
Proof.
  destruct a as [|c1 a]; [done|]. rewrite string_app_cons. simpl.
  destruct (Ascii.eqb c1 "s"); [|done].
  destruct a as [|c2 a]; [done|]. by rewrite string_app_cons.
Qed.

Lemma sup_free_app (a b : string) :
  sup_free a = true -> sup_free b = true -> sup_free (a +:+ b) = true.
Proof.
  intros Ha Hb. induction a as [|c a IH]; [by rewrite string_app_nil_l|].
  rewrite string_app_cons. cbn [sup_free] in *.
  apply andb_true_iff in Ha as [Hc Ha]. rewrite (IH Ha), andb_true_r.
  apply orb_true_iff in Hc as [Hc|Hc]; [by rewrite Hc|].
  by rewrite (angle_guard_app _ _ Hc), orb_true_r.
Qed.

Lemma no_angle_sup_free (s : string) : no_angle s = true -> sup_free s = true.
Proof.
  unfold no_angle. induction s as [|c s IH]; [done|]. simpl.
  intros [Hc Hs]%andb_true_iff. by rewrite Hc, IH.
Qed.

Lemma sup_free_join (sep : string) (l : list string) :
  sup_free sep = true -> Forall (fun s => sup_free s = true) l ->
  sup_free (Py.join sep l) = true.
Proof.
  intros Hsep. induction 1 as [|s l Hs Hl IH]; [reflexivity|].
  destruct l as [|s' l]; [exact Hs|].
  change (Py.join sep (s :: s' :: l)) with (s +:+ sep +:+ Py.join sep (s' :: l)).
  by repeat apply sup_free_app.
Qed.

Lemma sup_free_concat (l : list string) :
  Forall (fun s => sup_free s = true) l -> sup_free (Py.concat l) = true.
Proof.
  induction 1 as [|s l Hs Hl IH]; [reflexivity|].
  simpl. by apply sup_free_app.
Qed.

(** A string without guarded-off [<] does not contain [<sup>]. *)
Lemma sup_free_contains (s : string) :
  sup_free s = true -> Py.contains "<sup>" s = false.
Proof.
  unfold Py.contains. induction s as [|c s IH]; [done|].
  cbn [sup_free]. intros [Hc Hs]%andb_true_iff.
  specialize (IH Hs). cbn [String.index].
  assert (Hp : String.prefix "<sup>" (String c s) = false).
  { cbn [String.prefix]. destruct (ascii_dec "<" c) as [<-|Hne]; [|reflexivity].
    simpl in Hc. destruct s as [|c1 s]; [done|]. simpl in Hc.
    cbn [String.prefix]. destruct (ascii_dec "s" c1) as [<-|Hne]; [|reflexivity].
    simpl in Hc. destruct s as [|c2 s]; [done|].
    cbn [String.prefix]. destruct (ascii_dec "u" c2) as [<-|Hne]; [done|reflexivity]. }
  rewrite Hp. by destruct (String.index 0 "<sup>" s).
Qed.

Lemma prefix_app_self (p y : string) : String.prefix p (p +:+ y) = true.
Proof.
  induction p as [|c p IH]; [by destruct ("" +:+ y)|].
  rewrite string_app_cons. simpl. by destruct (ascii_dec c c).
Qed.

(** A string is contained in what starts with it, and in what something
    containing it is put behind. *)
Lemma contains_start (p y : string) : Py.contains p (p +:+ y) = true.
Proof.
  unfold Py.contains. pose proof (prefix_app_self p y) as H.
  destruct (p +:+ y) as [|b t] eqn:E.
  - destruct p as [|c p]; [reflexivity|]. by rewrite string_app_cons in E.
  - cbn [String.index]. by rewrite H.
Qed.

Lemma contains_app_r (p x y : string) :
  Py.contains p y = true -> Py.contains p (x +:+ y) = true.
Proof.
  unfold Py.contains. intros H. induction x as [|c x IH].
  - by rewrite string_app_nil_l.
  - rewrite string_app_cons. cbn [String.index].
    destruct (String.prefix p (String c (x +:+ y))); [reflexivity|].
    by destruct (String.index 0 p (x +:+ y)).
Qed.

Lemma contains_middle (p x y : string) : Py.contains p (x +:+ p +:+ y) = true.
Proof. apply contains_app_r, contains_start. Qed.

(** *** The pieces of the HTML of a span *)

Lemma str_of_int_sup_free (i : Z) : sup_free (Py.str_of_int i) = true.
Proof.
  apply no_angle_sup_free. unfold no_angle.
  eapply string_forallb_impl; [|apply str_of_int_chars].
  intros c Hc. destruct (Ascii.eqb_spec c "<") as [->|]; [discriminate Hc|done].
Qed.

Lemma color_sup_free (k v : string) :
  dict_get entity_colors k = Some v -> sup_free v = true.
Proof.
  intros H. apply dict_get_In in H. simpl in H.
  repeat (destruct H as [<-|H]; [reflexivity|]). destruct H.
Qed.

Lemma matched_colors_sup_free (tys : list string) :
  Forall (fun c => sup_free c = true) (matched_colors tys).
Proof.
  apply List.Forall_forall. intros c H.
  apply list_elem_of_In, list_elem_of_omap in H as (ty & _ & Hty).
  by apply color_sup_free in Hty.
Qed.

Lemma get_primary_color_sup_free (tys : list string) :
  sup_free (get_primary_color tys) = true.
Proof.
  rewrite get_primary_color_matched.
  destruct (matched_colors_sup_free tys) as [|c l Hc _]; [reflexivity|exact Hc].
Qed.

Lemma imap_Forall {A B} (Q : A -> Prop) (P : B -> Prop) (l : list A) :
  forall f : nat -> A -> B,
  Forall Q l -> (forall i x, Q x -> P (f i x)) -> Forall P (imap f l).
Proof.
  induction l as [|x l IH]; intros f Hl H; [constructor|].
  apply Forall_cons in Hl as [Hx Hl].
  rewrite imap_cons. constructor; [by apply H|]. apply IH; [exact Hl|].
  intros i y. apply H.
Qed.

Ltac sup_free_pieces :=
  repeat first
    [ reflexivity
    | assumption
    | apply str_of_int_sup_free
    | apply sup_free_app ].

Lemma gradient_stops_sup_free (colors : list string) :
  Forall (fun c => sup_free c = true) colors ->
  Forall (fun s => sup_free s = true) (gradient_stops colors).
Proof.
  intros H. unfold gradient_stops.
  apply (imap_Forall (fun c => sup_free c = true)); [exact H|].
  intros i c Hc. sup_free_pieces.
Qed.

Lemma get_combined_colors_sup_free (tys : list string) :
  sup_free (fst (get_combined_colors tys)) = true
  /\ sup_free (snd (get_combined_colors tys)) = true.
Proof.
  unfold get_combined_colors. destruct (length tys <=? 1)%nat.
  - cbn [fst snd]. split; apply get_primary_color_sup_free.
  - pose proof (matched_colors_sup_free tys) as H.
    destruct H as [|c0 l H0 Hl]; [by split|].
    destruct Hl as [|c1 l H1 Hl]; [by split|].
    destruct Hl as [|c2 l H2 Hl]; cbn [fst snd].
    + split; [exact H0|]. sup_free_pieces.
    + split; [exact H0|].
      apply sup_free_app; [reflexivity|]. apply sup_free_app; [|reflexivity].
      apply sup_free_join; [reflexivity|]. apply gradient_stops_sup_free.
      by repeat constructor.
Qed.

Lemma multi_label_style_sup_free (e : EntitySpan.t) :
  sup_free (fst (fst (multi_label_style e))) = true
  /\ sup_free (snd (fst (multi_label_style e))) = true
  /\ sup_free (snd (multi_label_style e)) = true.
Proof.
  unfold multi_label_style. destruct (1 <? length (EntitySpan.types e))%nat;
    [|by repeat split].
  assert (Ha : sup_free (attr "data-type-count"
                 (Py.str_of_int (Z.of_nat (length (EntitySpan.types e))))) = true)
    by (unfold attr; sup_free_pieces).
  pose proof (matched_colors_sup_free (EntitySpan.types e)) as H.
  destruct H as [|c0 l H0 Hl]; [by repeat split|].
  destruct Hl as [|c1 l H1 Hl]; [by repeat split|].
  destruct Hl as [|c2 l H2 Hl]; cbn [fst snd];
    (split; [reflexivity|]; split; [sup_free_pieces|exact Ha]).
Qed.

Section SupFreeHtml.

Variable e : EntitySpan.t.
Hypothesis types_ok : Forall (fun t => no_angle t = true) (EntitySpan.types e).

Lemma types_sup_free : Forall (fun t => sup_free t = true) (EntitySpan.types e).
Proof. eapply List.Forall_impl; [|exact types_ok]. apply no_angle_sup_free. Qed.

Lemma type_items_sup_free :
  sup_free (Py.concat (map type_item (EntitySpan.types e))) = true.
Proof.
  apply sup_free_concat, Forall_map.
  eapply List.Forall_impl; [|exact types_sup_free]. intros t Ht.
  unfold type_item, attr. cbv zeta.
  assert (Hc : sup_free (default default_color (dict_get entity_colors t)) = true).
  { destruct (dict_get entity_colors t) eqn:E; [|reflexivity].
    by apply color_sup_free in E. }
  sup_free_pieces.
Qed.

Lemma tooltip_html_sup_free : sup_free (tooltip_html e) = true.
Proof.
  unfold tooltip_html, attr.
  assert (Hs : sup_free (source_labels (EntitySpan.source e)) = true)
    by (by destruct (EntitySpan.source e)).
  pose proof type_items_sup_free as Ht.
  sup_free_pieces.
Qed.

Lemma opening_tag_sup_free (is_primary : bool) :
  sup_free (opening_tag e is_primary) = true.
Proof.
  unfold opening_tag.
  destruct (get_combined_colors_sup_free (EntitySpan.types e)) as [Hp Hb].
  destruct (get_combined_colors (EntitySpan.types e)) as [primary_color background].
  destruct (multi_label_style_sup_free e) as (Hm & Hv & Hn).
  destruct (multi_label_style e) as [[multi_label_class css_variables] type_count_attr].
  cbn [fst snd] in *. unfold attr.
  assert (Hs : sup_free (source_name (EntitySpan.source e)) = true)
    by (by destruct (EntitySpan.source e)).
  assert (Hj : sup_free (Py.join "|" (EntitySpan.types e)) = true)
    by (apply sup_free_join; [reflexivity|exact types_sup_free]).
  assert (Ho : sup_free (if is_primary then "0.8" else "0.4") = true)
    by (by destruct is_primary).
  assert (Hbg : sup_free
            (if (1 <? length (EntitySpan.types e))%nat
             then "background: " +:+ background +:+ ";"
             else "background-color: " +:+ background +:+ ";") = true)
    by (destruct (1 <? length (EntitySpan.types e))%nat; sup_free_pieces).
  sup_free_pieces.
Qed.

Lemma html_escape_sup_free (s : string) : sup_free (PyLib.html_escape s) = true.
Proof.
  apply no_angle_sup_free. pose proof (html_escape_clean s) as H.
  unfold no_angle. induction (PyLib.html_escape s) as [|c t IH]; [reflexivity|].
  simpl in *. apply andb_true_iff in H as [Hc Ht]. rewrite IH by exact Ht.
  unfold markup_char in Hc. by destruct (Ascii.eqb c "<").
Qed.

(** With an occurrence index of at most 1 and no [<] in the type
    strings, the HTML of a span has no [<sup>] in it. *)
Lemma create_entity_html_sup_free (is_primary : bool) :
  EntitySpan.occurrence_id e <= 1 ->
  sup_free (create_entity_html e is_primary) = true.
Proof.
  intros Hid. unfold create_entity_html, occurrence_suffix.
  destruct (Z.gtb_spec (EntitySpan.occurrence_id e) 1) as [|_]; [lia|].
  pose proof (opening_tag_sup_free is_primary). pose proof tooltip_html_sup_free.
  pose proof (html_escape_sup_free (EntitySpan.text e)).
  sup_free_pieces.
Qed.

End SupFreeHtml.

(** With no [<] in the type strings, the HTML of a span holds [<sup>]
    exactly when its occurrence index exceeds 1. *)
Lemma create_entity_html_sup (e : EntitySpan.t) (is_primary : bool) :
  Forall (fun t => no_angle t = true) (EntitySpan.types e) ->
  Py.contains "<sup>" (create_entity_html e is_primary) = true
  <-> 1 < EntitySpan.occurrence_id e.
Proof.
  intros Hty. split.
  - intros H. destruct (Z.lt_ge_cases 1 (EntitySpan.occurrence_id e)) as [|Hle];
      [done|].
    rewrite sup_free_contains in H; [done|].
    apply create_entity_html_sup_free; [exact Hty|lia].
  - intros Hid. unfold create_entity_html, occurrence_suffix.
    destruct (Z.gtb_spec (EntitySpan.occurrence_id e) 1) as [_|]; [|lia].
    rewrite <- !string_app_assoc. rewrite !string_app_assoc.
    rewrite <- (string_app_assoc (opening_tag e is_primary)).
    apply contains_middle.
Qed.

(** ** The occurrences of the first entry with a span string *)

Lemma find_split {A} (f : A -> bool) (l : list A) (a : A) :
  List.find f l = Some a ->
  exists pre post,
    l = pre ++ a :: post /\ f a = true /\ Forall (fun x => f x = false) pre.
Proof.
  induction l as [|x l IH]; [done|]. simpl. destruct (f x) eqn:E.
  - intros [= ->]. by exists [], l.
  - intros H. destruct (IH H) as (pre & post & -> & Ha & Hpre).
    exists (x :: pre), post. repeat split; [done|by constructor].
Qed.

(** An entry with another span string leaves the counter alone. *)
Lemma add_annotation_counter_other passage src (st : ExtractState)
    (a : Annotation) (s : string) :
  span a <> s ->
  counter_get (fst (add_annotation passage src st a)) s = counter_get (fst st) s.
Proof.
  intros Hne. unfold add_annotation.
  generalize (find_all_occurrences passage (span a)). intros occs. revert st.
  induction occs as [|occ occs IH]; intros st; [reflexivity|].
  cbn [fold_left]. rewrite IH. destruct st as [c es]. unfold add_occurrence.
  cbn [fst]. by rewrite counter_get_insert_ne.
Qed.

Lemma add_annotations_counter_other passage src (l : list Annotation) (s : string) :
  forall st : ExtractState,
  Forall (fun a => String.eqb (span a) s = false) l ->
  counter_get (fst (fold_left (add_annotation passage src) l st)) s
  = counter_get (fst st) s.
Proof.
  induction l as [|a l IH]; intros st Hl; [reflexivity|].
  apply Forall_cons in Hl as [Ha Hl]. cbn [fold_left].
  rewrite IH by exact Hl. apply add_annotation_counter_other.
  by apply String.eqb_neq.
Qed.

Lemma numbered_spans_lookup src span_text tys base occs (k : nat) (i j : Z) :
  occs !! k = Some (i, j) ->
  In (EntitySpan.mk i j span_text tys src (base + Z.of_nat k + 1))
    (numbered_spans src span_text tys base occs).
Proof.
  intros Hk. apply list_elem_of_In, list_elem_of_lookup. exists k.
  unfold numbered_spans. by rewrite list_lookup_imap, Hk.
Qed.

(** The [k]-th occurrence of the span string of the first ground-truth
    entry with that string becomes a ground-truth span with occurrence
    index [k + 1]. *)
Lemma first_entry_spans (item : Item) (a : Annotation) (k : nat) (i j : Z) :
  List.find (fun a' => String.eqb (span a') (span a))
    (annotations_of ground_truth item) = Some a ->
  find_all_occurrences (item_text item) (span a) !! k = Some (i, j) ->
  In (EntitySpan.mk i j (span a) (ann_types a) ground_truth (Z.of_nat k + 1))
    (by_source ground_truth (extract_entities item)).
Proof.
  intros Hfind Hk.
  apply find_split in Hfind as (pre & post & Hl & _ & Hpre).
  apply by_source_In. split; [|reflexivity].
  unfold extract_entities. apply sorted_In. unfold collect_entities.
  do 2 apply add_annotations_keeps.
  unfold add_annotations. fold (annotations_of ground_truth item).
  rewrite Hl, fold_left_app. cbn [fold_left].
  apply (add_annotations_keeps _ _ (Some post)).
  rewrite add_annotation_snd. apply in_or_app. right.
  rewrite add_annotations_counter_other by exact Hpre.
  by apply (numbered_spans_lookup _ _ _ 0).
Qed.

(** Spans of one source with the same text differ in their occurrence
    index, so none of them is there twice. *)
Lemma spans_with_NoDup (item : Item) (src : Source) (s : string) :
  List.NoDup (spans_with src s (extract_entities item)).
Proof.
  assert (Hperm : Permutation (spans_with src s (extract_entities item))
                    (spans_with src s (collect_entities item))).
  { unfold spans_with, by_source. do 2 apply filter_permutation.
    apply sorted_perm. }
  apply (Permutation_NoDup (Permutation_sym Hperm)).
  destruct (collect_entities_counted item src s) as [n Hn].
  apply (NoDup_map_inv EntitySpan.occurrence_id). rewrite Hn.
  apply Finite.Injective_map_NoDup; [intros x y; lia|apply NoDup_ListNoDup, NoDup_seq].
Qed.

Lemma filter_cons_split {A} (f : A -> bool) (l : list A) (x : A) (r : list A) :
  List.filter f l = x :: r ->
  exists pre l',
    l = pre ++ x :: l' /\ Forall (fun y => f y = false) pre
    /\ List.filter f l' = r.
Proof.
  induction l as [|y l IH]; [done|]. simpl. destruct (f y) eqn:E.
  - intros [= -> <-]. by exists [], l.
  - intros H. destruct (IH H) as (pre & l' & -> & Hpre & Hr).
    exists (y :: pre), l'. repeat split; [by constructor|exact Hr].
Qed.

Lemma filter_nil_Forall {A} (f : A -> bool) (l : list A) :
  List.filter f l = [] -> Forall (fun y => f y = false) l.
Proof.
  induction l as [|y l IH]; [constructor|]. simpl. destruct (f y) eqn:E; [done|].
  intros H. constructor; auto.
Qed.

(** Three spans with increasing starts stand in that order in a list
    sorted by key; if the list holds each of them once, it is cut by them
    into four stretches that hold none of them. *)
Lemma sorted_three_split (h : EntitySpan.t -> bool) (l : list EntitySpan.t)
    (e1 e2 e3 : EntitySpan.t) :
  sorted_by_key l -> List.NoDup (List.filter h l) ->
  h e1 = true -> h e2 = true -> h e3 = true ->
  In e1 l -> In e2 l -> In e3 l ->
  EntitySpan.start e1 < EntitySpan.start e2 ->
  EntitySpan.start e2 < EntitySpan.start e3 ->
  exists p0 p1 p2 p3,
    l = p0 ++ e1 :: p1 ++ e2 :: p2 ++ e3 :: p3
    /\ forall x, In x (p0 ++ p1 ++ p2 ++ p3) -> x <> e1 /\ x <> e2 /\ x <> e3.
Proof.
  intros Hs Hnd Hh1 Hh2 Hh3 H1 H2 H3 H12 H23.
  set (f := fun x : EntitySpan.t => bool_decide (x = e1 \/ x = e2 \/ x = e3)).
  assert (Hfh : List.filter f l = List.filter f (List.filter h l)).
  { clear -Hh1 Hh2 Hh3. induction l as [|x l IH]; [reflexivity|]. simpl.
    destruct (f x) eqn:Ef, (h x) eqn:Eh; simpl; rewrite ?Ef, <- ?IH; try done.
    unfold f in Ef. apply bool_decide_eq_true in Ef.
    destruct Ef as [-> | [-> | ->]]; congruence. }
  assert (Hin : forall x, In x (List.filter f l) <-> In x [e1; e2; e3]).
  { intros x. rewrite filter_In. unfold f. rewrite bool_decide_eq_true. simpl.
    split; [intros [_ [<-|[<-|<-]]]; auto|].
    intros [<-|[<-|[<-|[]]]]; auto. }
  assert (Hf : List.filter f l = [e1; e2; e3]).
  { apply (StronglySorted_unique_strong (holds key_le)).
    - intros x y Hx Hy Hxy Hyx. apply key_le_start in Hxy, Hyx.
      apply list_elem_of_In, Hin in Hx. apply list_elem_of_In in Hy.
      simpl in Hx, Hy.
      destruct Hx as [<-|[<-|[<-|[]]]], Hy as [<-|[<-|[<-|[]]]];
        first [reflexivity | lia].
    - by apply filter_strongly_sorted.
    - repeat constructor; unfold holds, key_le, sort_key; cbn [fst snd];
        apply orb_true_iff; left; apply Z.ltb_lt; lia.
    - apply Permutation.NoDup_Permutation; [| |exact Hin].
      + rewrite Hfh. by apply List.NoDup_filter.
      + repeat constructor; simpl; intros H;
          repeat (destruct H as [H|H]; [subst; lia|]); exact H. }
  apply filter_cons_split in Hf as (p0 & l1 & -> & H0 & Hf).
  apply filter_cons_split in Hf as (p1 & l2 & -> & Hp1 & Hf).
  apply filter_cons_split in Hf as (p2 & p3 & -> & Hp2 & Hf).
  apply filter_nil_Forall in Hf.
  exists p0, p1, p2, p3. split; [reflexivity|].
  intros x Hx.
  assert (Hfx : f x = false).
  { rewrite !in_app_iff in Hx. rewrite List.Forall_forall in H0, Hp1, Hp2, Hf.
    destruct Hx as [Hx|[Hx|[Hx|Hx]]]; auto. }
  unfold f in Hfx. apply bool_decide_eq_false in Hfx. tauto.
Qed.

(** ** [resolve_overlaps] around a span that overlaps nothing *)

(** The groups closed so far play no part in the loop. *)
Lemma resolve_loop_shift (rest : list EntitySpan.t) :
  forall (closed groups : list (list EntitySpan.t)) (cur : list EntitySpan.t),
  fold_left resolve_step rest (closed ++ groups, cur)
  = (closed ++ fst (fold_left resolve_step rest (groups, cur)),
     snd (fold_left resolve_step rest (groups, cur))).
Proof.
  induction rest as [|e rest IH]; intros closed groups cur; [reflexivity|].
  cbn [fold_left]. unfold resolve_step at 2 4 6.
  destruct (existsb (overlaps e) cur); [apply IH|].
  rewrite <- app_assoc. apply IH.
Qed.

Lemma resolve_overlaps_loop (first : EntitySpan.t) (rest : list EntitySpan.t) :
  resolve_overlaps (first :: rest)
  = fst (fold_left resolve_step rest ([], [first]))
    ++ [snd (fold_left resolve_step rest ([], [first]))].
Proof.
  unfold resolve_overlaps. by destruct (fold_left _ _ _).
Qed.

(** From a state whose open group is the span [e] alone, with nothing to
    come that overlaps [e]. *)
Lemma resolve_loop_after (e : EntitySpan.t) (post : list EntitySpan.t)
    (closed : list (list EntitySpan.t)) :
  (forall y, In y post -> overlaps y e = false) ->
  fst (fold_left resolve_step post (closed, [e]))
  ++ [snd (fold_left resolve_step post (closed, [e]))]
  = closed ++ [e] :: resolve_overlaps post.
Proof.
  intros Hpost. destruct post as [|y post]; [reflexivity|].
  cbn [fold_left]. unfold resolve_step at 2 4. cbn [existsb].
  rewrite (Hpost y) by (by left). cbn [orb].
  pose proof (resolve_loop_shift post (closed ++ [[e]]) [] [y]) as H.
  rewrite app_nil_r in H. rewrite H. cbn [fst snd].
  rewrite resolve_overlaps_loop, <- !app_assoc. reflexivity.
Qed.

Lemma resolve_loop_members (rest : list EntitySpan.t) : forall groups cur x,
  In x (snd (fold_left resolve_step rest (groups, cur))) ->
  In x cur \/ In x rest.
Proof.
  induction rest as [|e rest IH]; intros groups cur x; [by left|].
  cbn [fold_left]. unfold resolve_step at 2.
  destruct (existsb (overlaps e) cur); intros H; apply IH in H.
  - rewrite in_app_iff in H. simpl in *. tauto.
  - simpl in *. tauto.
Qed.

(** A span that overlaps nothing before it, and that nothing after it
    overlaps, is a group of its own, and the spans on either side are
    grouped as if it were not there. *)
Lemma resolve_overlaps_isolated (pre post : list EntitySpan.t) (e : EntitySpan.t) :
  (forall x, In x pre -> overlaps e x = false) ->
  (forall y, In y post -> overlaps y e = false) ->
  resolve_overlaps (pre ++ e :: post)
  = resolve_overlaps pre ++ [e] :: resolve_overlaps post.
Proof.
  intros Hpre Hpost. destruct pre as [|first pre].
  - simpl app at 1. rewrite resolve_overlaps_loop.
    by rewrite resolve_loop_after.
  - change ((first :: pre) ++ e :: post) with (first :: (pre ++ e :: post)).
    rewrite !resolve_overlaps_loop, fold_left_app. cbn [fold_left].
    pose proof (resolve_loop_members pre [] [first]) as Hmem.
    destruct (fold_left resolve_step pre ([], [first])) as [groups cur].
    cbn [fst snd] in *. unfold resolve_step at 2 4.
    assert (Hno : existsb (overlaps e) cur = false).
    { apply not_true_iff_false. rewrite existsb_exists. intros (x & Hx & Hov).
      rewrite Hpre in Hov; [done|]. apply Hmem in Hx. simpl in *. tauto. }
    rewrite Hno, resolve_loop_after by exact Hpost.
    by rewrite <- !app_assoc.
Qed.


Lemma layout_app_group (f : string -> string) (r : list EntitySpan.t -> string)
    (passage : string) (g : list EntitySpan.t)
    (after : list (list EntitySpan.t)) :
  forall (before : list (list EntitySpan.t)) (last_pos : Z),
  layout f r passage (before ++ g :: after) last_pos
  = layout_until f r passage before last_pos (group_start g)
    +:+ r g +:+ layout f r passage after (group_end g).
Proof.
  induction before as [|b before IH]; intros last_pos; [reflexivity|].
  cbn [List.app layout layout_until]. by rewrite IH, !string_app_assoc.
Qed.

(** C9: every rendered span, alone or as the longest of its group, has
    [<sup>occurrence_id</sup>] right after its escaped text exactly when
    its occurrence index exceeds 1, and when no type string holds [<] the
    HTML of a span contains [<sup>] exactly then.  The three occurrences,
    none overlapping another, of the span string of the first ground-truth
    entry with that string become ground-truth spans with the indices
    1, 2 and 3 in text order.  Each of them lies in an overlap group and,
    whenever it is the longest span of its group, is rendered without
    superscript, with superscript 2 and with superscript 3 respectively;
    when no other ground-truth span overlaps them, each is a group of its
    own and the rendering shows all three in text order. *)
Theorem occurrence_superscripts (item : Item) (a : Annotation)
    (a1 b1 a2 b2 a3 b3 : Z) :
  List.find (fun a' => String.eqb (span a') (span a))
    (annotations_of ground_truth item) = Some a ->
  find_all_occurrences (item_text item) (span a)
  = [(a1, b1); (a2, b2); (a3, b3)] ->
  b1 <= a2 -> b2 <= a3 ->
  let s := span a in
  let tys := ann_types a in
  let e1 := EntitySpan.mk a1 b1 s tys ground_truth 1 in
  let e2 := EntitySpan.mk a2 b2 s tys ground_truth 2 in
  let e3 := EntitySpan.mk a3 b3 s tys ground_truth 3 in
  let passage := item_text item in
  let spans := by_source ground_truth (extract_entities item) in
  let between := layout_until PyLib.html_escape render_group passage in
  (forall (g : list EntitySpan.t) (e : EntitySpan.t),
      PyLib.max_by span_length g = Some e ->
      render_group g
      = group_wrap g e (opening_tag e true)
        +:+ PyLib.html_escape (EntitySpan.text e)
        +:+ (if EntitySpan.occurrence_id e >? 1
             then "<sup>" +:+ Py.str_of_int (EntitySpan.occurrence_id e)
                  +:+ "</sup>"
             else "")
        +:+ group_wrap g e (tooltip_html e +:+ "</span>"))
  /\ (forall (e : EntitySpan.t) (is_primary : bool),
        create_entity_html e is_primary
        = opening_tag e is_primary
          +:+ PyLib.html_escape (EntitySpan.text e)
          +:+ (if EntitySpan.occurrence_id e >? 1
               then "<sup>" +:+ Py.str_of_int (EntitySpan.occurrence_id e)
                    +:+ "</sup>"
               else "")
          +:+ tooltip_html e +:+ "</span>"
        /\ (Forall (fun t => no_angle t = true) (EntitySpan.types e) ->
            (Py.contains "<sup>" (create_entity_html e is_primary) = true
             <-> 1 < EntitySpan.occurrence_id e)))
  /\ (a1 < a2 /\ a2 < a3 /\ In e1 spans /\ In e2 spans /\ In e3 spans)
  /\ (forall (e : EntitySpan.t) (sup : string),
        In (e, sup) [(e1, ""); (e2, "<sup>2</sup>"); (e3, "<sup>3</sup>")] ->
        exists g : list EntitySpan.t,
          In g (resolve_overlaps spans) /\ In e g
          /\ (PyLib.max_by span_length g = Some e ->
              render_group g
              = group_wrap g e (opening_tag e true)
                +:+ PyLib.html_escape s +:+ sup
                +:+ group_wrap g e (tooltip_html e +:+ "</span>")))
  /\ ((forall x, In x spans -> x <> e1 -> x <> e2 -> x <> e3 ->
         overlaps x e1 = false /\ overlaps x e2 = false
         /\ overlaps x e3 = false) ->
      exists g0 g1 g2 g3 : list (list EntitySpan.t),
        resolve_overlaps spans = g0 ++ [e1] :: g1 ++ [e2] :: g2 ++ [e3] :: g3
        /\ markup_text passage spans
           = between g0 0 a1
             +:+ (opening_tag e1 true +:+ PyLib.html_escape s
                  +:+ tooltip_html e1 +:+ "</span>")
             +:+ between g1 b1 a2
             +:+ (opening_tag e2 true +:+ PyLib.html_escape s +:+ "<sup>2</sup>"
                  +:+ tooltip_html e2 +:+ "</span>")
             +:+ between g2 b2 a3
             +:+ (opening_tag e3 true +:+ PyLib.html_escape s +:+ "<sup>3</sup>"
                  +:+ tooltip_html e3 +:+ "</span>")
             +:+ layout PyLib.html_escape render_group passage g3 b3).
Proof.
  intros Hfind Hocc H12 H23 s tys e1 e2 e3 passage spans between.
  split; [intros g e Hmax; by apply render_group_of_primary|].
  split; [intros e is_primary; split;
            [reflexivity|intros Hty; by apply create_entity_html_sup]|].
  assert (Hin : forall i j, In (i, j) [(a1, b1); (a2, b2); (a3, b3)] -> i <= j).
  { intros i j Hij. rewrite <- Hocc in Hij.
    apply find_all_occurrences_In in Hij as (Hi & -> & _).
    unfold Py.len. lia. }
  pose proof (Hin a1 b1 ltac:(by left)) as Hb1.
  pose proof (Hin a2 b2 ltac:(right; by left)) as Hb2.
  pose proof (Hin a3 b3 ltac:(right; right; by left)) as Hb3.
  pose proof (find_all_occurrences_ascending (item_text item) (span a)) as Hasc.
  rewrite Hocc in Hasc. cbn [map fst] in Hasc.
  apply StronglySorted_inv in Hasc as [Hasc Ha1].
  apply StronglySorted_inv in Hasc as [_ Ha2].
  apply Forall_inv in Ha1, Ha2.
  assert (He1 : In e1 spans)
    by (apply (first_entry_spans item a 0 a1 b1 Hfind); by rewrite Hocc).
  assert (He2 : In e2 spans)
    by (apply (first_entry_spans item a 1 a2 b2 Hfind); by rewrite Hocc).
  assert (He3 : In e3 spans)
    by (apply (first_entry_spans item a 2 a3 b3 Hfind); by rewrite Hocc).
  split; [by repeat split|].
  split.
  { intros e sup Hsup.
    assert (He : In e spans)
      by (destruct Hsup as [[= <- <-]|[[= <- <-]|[[= <- <-]|[]]]]; assumption).
    rewrite <- (resolve_overlaps_concat spans) in He.
    apply in_concat in He as (g & Hg & He). exists g.
    split; [exact Hg|]. split; [exact He|]. intros Hmax.
    rewrite (render_group_of_primary g e Hmax).
    by destruct Hsup as [[= <- <-]|[[= <- <-]|[[= <- <-]|[]]]]. }
  intros Hno.
  assert (Hsplit : exists p0 p1 p2 p3,
            spans = p0 ++ e1 :: p1 ++ e2 :: p2 ++ e3 :: p3
            /\ forall x, In x (p0 ++ p1 ++ p2 ++ p3) ->
                 x <> e1 /\ x <> e2 /\ x <> e3).
  { apply (sorted_three_split (fun e => bool_decide (EntitySpan.text e = s)));
      [ apply filter_strongly_sorted, extract_entities_sorted
      | apply (spans_with_NoDup item ground_truth s)
      | by apply bool_decide_eq_true ..
      | exact He1 | exact He2 | exact He3
      | exact Ha1 | exact Ha2 ]. }
  destruct Hsplit as (p0 & p1 & p2 & p3 & Hspans & Hp).
  assert (Hother : forall x, In x (p0 ++ p1 ++ p2 ++ p3) ->
            overlaps x e1 = false /\ overlaps x e2 = false
            /\ overlaps x e3 = false).
  { intros x Hx. destruct (Hp x Hx) as (N1 & N2 & N3).
    apply Hno; try done. rewrite Hspans.
    rewrite !in_app_iff in Hx. rewrite !in_app_iff. simpl.
    rewrite !in_app_iff. simpl. rewrite !in_app_iff. simpl. tauto. }
  assert (Hov : forall x y : EntitySpan.t,
            EntitySpan.end_ x <= EntitySpan.start y \/
            EntitySpan.end_ y <= EntitySpan.start x ->
            overlaps x y = false).
  { intros x y Hxy. apply not_true_iff_false. rewrite overlaps_iff. lia. }
  assert (H21 : overlaps e2 e1 = false) by (apply Hov; simpl; lia).
  assert (H31 : overlaps e3 e1 = false) by (apply Hov; simpl; lia).
  assert (H32 : overlaps e3 e2 = false) by (apply Hov; simpl; lia).
  assert (Hg : resolve_overlaps spans
               = resolve_overlaps p0 ++ [e1] :: resolve_overlaps p1
                 ++ [e2] :: resolve_overlaps p2 ++ [e3] :: resolve_overlaps p3).
  { rewrite Hspans.
    rewrite resolve_overlaps_isolated; [f_equal; f_equal| |].
    - rewrite resolve_overlaps_isolated; [f_equal; f_equal| |].
      + apply resolve_overlaps_isolated.
        * intros x Hx. rewrite overlaps_sym. apply Hother.
          rewrite !in_app_iff. tauto.
        * intros x Hx. apply Hother. rewrite !in_app_iff. tauto.
      + intros x Hx. rewrite overlaps_sym. apply Hother.
        rewrite !in_app_iff. tauto.
      + intros x Hx. apply in_app_or in Hx as [Hx|[<-|Hx]]; [|exact H32|];
          apply Hother; rewrite !in_app_iff; tauto.
    - intros x Hx. rewrite overlaps_sym. apply Hother.
      rewrite !in_app_iff. tauto.
    - intros x Hx. apply in_app_or in Hx as [Hx|[<-|Hx]]; [|exact H21|].
      + apply Hother; rewrite !in_app_iff; tauto.
      + apply in_app_or in Hx as [Hx|[<-|Hx]]; [|exact H31|];
          apply Hother; rewrite !in_app_iff; tauto. }
  exists (resolve_overlaps p0), (resolve_overlaps p1), (resolve_overlaps p2),
    (resolve_overlaps p3).
  split; [exact Hg|].
  rewrite markup_text_layout, Hg. rewrite !layout_app_group. reflexivity.
Qed.

Lemma occurrence_superscripts_witness :
  let item := three_and_cat_item in
  let passage := item_text item in
  let spans := by_source ground_truth (extract_entities item) in
  let e1 := EntitySpan.mk 0 3 "the" ["E21 Person"] ground_truth 1 in
  let e2 := EntitySpan.mk 12 15 "the" ["E21 Person"] ground_truth 2 in
  let e3 := EntitySpan.mk 24 27 "the" ["E21 Person"] ground_truth 3 in
  let between := layout_until PyLib.html_escape render_group passage in
  (In e1 spans /\ In e2 spans /\ In e3 spans)
  /\ exists g0 g1 g2 g3 : list (list EntitySpan.t),
       resolve_overlaps spans = g0 ++ [e1] :: g1 ++ [e2] :: g2 ++ [e3] :: g3
       /\ markup_text passage spans
          = between g0 0 0
            +:+ (opening_tag e1 true +:+ PyLib.html_escape "the"
                 +:+ tooltip_html e1 +:+ "</span>")
            +:+ between g1 3 12
            +:+ (opening_tag e2 true +:+ PyLib.html_escape "the"
                 +:+ "<sup>2</sup>" +:+ tooltip_html e2 +:+ "</span>")
            +:+ between g2 15 24
            +:+ (opening_tag e3 true +:+ PyLib.html_escape "the"
                 +:+ "<sup>3</sup>" +:+ tooltip_html e3 +:+ "</span>")
            +:+ layout PyLib.html_escape render_group passage g3 27.
Proof.
  intros item passage spans e1 e2 e3 between.
  destruct (occurrence_superscripts three_and_cat_item
              {| span := "the"; ann_types := ["E21 Person"] |}
              0 3 12 15 24 27)
    as (_ & _ & (_ & _ & H1 & H2 & H3) & _ & Hrendered).
  - reflexivity.
  - vm_compute. reflexivity.
  - lia.
  - lia.
  - split; [by repeat split|]. apply Hrendered.
    intros x Hx N1 N2 N3. vm_compute in Hx.
    destruct Hx as [<-|[<-|[<-|[<-|[]]]]]; first [done|by vm_compute].
Defined.

(** What the ground-truth rendering of the record with the labels [the]
    and [the dog] is made of: the second occurrence of [the] is in the
    group of [the dog], which is the longer span, and the output has the
    superscript 3 but not the superscript 2. *)
Lemma overlapped_occurrence_rendering :
  let item := overlapped_occurrence_item in
  let spans := by_source ground_truth (extract_entities item) in
  let out := markup_text (item_text item) spans in
  resolve_overlaps spans
  = [ [EntitySpan.mk 0 3 "the" ["E21 Person"] ground_truth 1];
      [EntitySpan.mk 12 19 "the dog" ["E19 Physical Thing"] ground_truth 1;
       EntitySpan.mk 12 15 "the" ["E21 Person"] ground_truth 2];
      [EntitySpan.mk 24 27 "the" ["E21 Person"] ground_truth 3] ]
  /\ Py.contains "<sup>2</sup>" out = false
  /\ Py.contains "<sup>3</sup>" out = true
  /\ Py.contains "<sup>" (Py.slice out 0 (Py.find out "<sup>3</sup>" 0)) = false.
Proof. repeat split; vm_compute; reflexivity. Qed.

Lemma occurrence_superscripts_counterexample :
  ~ (forall (item : Item) (a : Annotation) (a1 b1 a2 b2 a3 b3 : Z),
       List.find (fun a' => String.eqb (span a') (span a))
         (annotations_of ground_truth item) = Some a ->
       find_all_occurrences (item_text item) (span a)
       = [(a1, b1); (a2, b2); (a3, b3)] ->
       b1 <= a2 -> b2 <= a3 ->
       let s := span a in
       let tys := ann_types a in
       let e1 := EntitySpan.mk a1 b1 s tys ground_truth 1 in
       let e2 := EntitySpan.mk a2 b2 s tys ground_truth 2 in
       let e3 := EntitySpan.mk a3 b3 s tys ground_truth 3 in
       let spans := by_source ground_truth (extract_entities item) in
       exists t0 t1 t2 t3 : string,
         markup_text (item_text item) spans
         = t0
           +:+ (opening_tag e1 true +:+ PyLib.html_escape s
                +:+ tooltip_html e1 +:+ "</span>")
           +:+ t1
           +:+ (opening_tag e2 true +:+ PyLib.html_escape s
                +:+ "<sup>2</sup>" +:+ tooltip_html e2 +:+ "</span>")
           +:+ t2
           +:+ (opening_tag e3 true +:+ PyLib.html_escape s
                +:+ "<sup>3</sup>" +:+ tooltip_html e3 +:+ "</span>")
           +:+ t3).
Proof.
  intros H.
  destruct (H overlapped_occurrence_item
              {| span := "the"; ann_types := ["E21 Person"] |}
              0 3 12 15 24 27)
    as (t0 & t1 & t2 & t3 & Hout);
    [reflexivity|vm_compute; reflexivity|lia|lia|].
  destruct overlapped_occurrence_rendering as (_ & Hno & _).
  cbv zeta in Hno. rewrite Hout, !string_app_assoc in Hno.
  rewrite (contains_app_r _ t0) in Hno; [discriminate Hno|].
  do 7 apply contains_app_r. apply contains_start.
Qed.




